(** * lineedit: a single-line terminal editor

    Shallow embedding of [lineedit/__init__.py]: the escape-sequence decoder
    ([esc2str], [parse_esc], [Key]), the edit buffer with its handlers
    ([Editor]) and the incremental renderer ([Editor.show]).

    Modelling choices.
    - A Python [str] is a [string]; one character is one [ascii], read as a
      code point below 256.
    - Python ints are [Z]; lengths, indices and erase counts, which are
      never negative in this program, are [nat].
    - [None] is [option]'s [None].
    - The input descriptor [fd] is the text that is still unread; [fd.read(1)]
      returns a string of length one, or the empty string once the input is
      exhausted.
    - Standard output is the field [out] of the editor state: [emit] appends
      to it.
    - [while] loops take a bound on the number of iterations of their body;
      [OutOfFuel] says that the bound was reached with the loop guard still
      true. *)

From Stdlib Require Import ZArith List Bool Ascii String DecimalString Lia.
Import ListNotations.

Local Open Scope string_scope.
Local Open Scope nat_scope.

(** ** Python string primitives *)

(** [s.find(sub)]: index of the first occurrence of [sub] in [s], or -1. *)
Definition py_find (s sub : string) : Z :=
  match index 0 sub s with
  | Some i => Z.of_nat i
  | None => (-1)%Z
  end.

(** [s[0:n]] for [n >= 0]. *)
Fixpoint slice_to (n : nat) (s : string) : string :=
  match n, s with
  | S k, String c r => String c (slice_to k r)
  | _, _ => EmptyString
  end.

(** [s[n:]] for [n >= 0]. *)
Fixpoint slice_from (n : nat) (s : string) : string :=
  match n, s with
  | S k, String _ r => slice_from k r
  | _, _ => s
  end.

(** [s[0:-1]]: everything but the last character (empty for the empty
    string, as in Python). *)
Definition drop_last (s : string) : string := slice_to (length s - 1) s.

(** [s[-1]] as a one-character string. Python raises IndexError on the empty
    string; every use in the program is guarded by a non-emptiness test. *)
Definition last_char (s : string) : string := slice_from (length s - 1) s.

(** [s[0]] as a one-character string, under the same guard. *)
Definition first_char (s : string) : string := slice_to 1 s.

(** [s * n]. *)
Fixpoint str_mul (s : string) (n : nat) : string :=
  match n with
  | 0 => EmptyString
  | S k => s ++ str_mul s k
  end.

(** [f"{n}"] for a non-negative int. *)
Definition str_of_nat (n : nat) : string :=
  NilEmpty.string_of_uint (Nat.to_uint n).

(** [ord(s)]: defined on strings of length one only (TypeError otherwise). *)
Definition ord (s : string) : option nat :=
  match s with
  | String c EmptyString => Some (nat_of_ascii c)
  | _ => None
  end.

(** Truthiness of a value that is [None] or an int, and [a or b]. *)
Definition truthy (v : option Z) : bool :=
  match v with
  | Some n => negb (n =? 0)%Z
  | None => false
  end.

Definition py_or (a b : option Z) : option Z := if truthy a then a else b.

(** [a or b] where [b] is an int. *)
Definition py_or_int (a : option Z) (b : Z) : Z :=
  match a with
  | Some n => if truthy a then n else b
  | None => b
  end.

(** [d.get(k)] on a dict written as its list of items. *)
Fixpoint dict_get {V : Type} (d : list (string * V)) (k : string) : option V :=
  match d with
  | [] => None
  | (k', v) :: d' => if (k' =? k)%string then Some v else dict_get d' k
  end.

Fixpoint int_dict_get {V : Type} (d : list (Z * V)) (k : Z) : option V :=
  match d with
  | [] => None
  | (k', v) :: d' => if (k' =? k)%Z then Some v else int_dict_get d' k
  end.

(** ** Results of effectful code *)

(** The two places where the program raises. Line 81 is a [raise] statement
    whose operand is the message text, built from [buf]; Python 3 raises a
    TypeError at such a statement, so an exception leaves [esc2str] there in
    any case. No function of the program catches exceptions. *)
Inductive exn : Type :=
| MalformedEsc (buf : string)
    (* line 81: raise f"Malformed ESC Sequence '{buf}'" *)
| OrdTypeError.
    (* line 176: ord() of a string whose length is not one *)

Inductive outcome (A : Type) : Type :=
| Done (a : A)
| Raised (e : exn)
| OutOfFuel.

Arguments Done {A} a.
Arguments Raised {A} e.
Arguments OutOfFuel {A}.

Definition bind {A B : Type} (m : outcome A) (k : A -> outcome B) : outcome B :=
  match m with
  | Done a => k a
  | Raised e => Raised e
  | OutOfFuel => OutOfFuel
  end.

Notation "x <- m ;; k" := (bind m (fun x => k))
  (at level 61, m at next level, right associativity).
Notation "' p <- m ;; k" := (bind m (fun p => k))
  (at level 61, p pattern, m at next level, right associativity).

(** ** Input *)

Definition stream : Type := string.

(** [fd.read(1)] *)
Definition fd_read1 (fd : stream) : string * stream :=
  match fd with
  | EmptyString => (EmptyString, EmptyString)
  | String c r => (String c EmptyString, r)
  end.

(** ** Key codes and escape sequences (lines 9-61) *)

Definition UNKNOWN : option Z := None.
Definition UP : Z := 1.
Definition DOWN : Z := 2.
Definition RIGHT : Z := 3.
Definition LEFT : Z := 4.
Definition HOME : Z := 5.
Definition END : Z := 6.
Definition INSERT : Z := 7.
Definition DELETE : Z := 8.
Definition PAGE_UP : Z := 9.
Definition PAGE_DOWN : Z := 10.
Definition CTRL_LEFT : Z := 11.
Definition CTRL_RIGHT : Z := 12.

Definition command_codes : list Z :=
  [UP; DOWN; RIGHT; LEFT; HOME; END; INSERT; DELETE; PAGE_UP; PAGE_DOWN;
   CTRL_LEFT; CTRL_RIGHT].

Definition SEQ : list (string * Z) :=
  [ ("A", UP); ("B", DOWN); ("C", RIGHT); ("D", LEFT); ("H", HOME);
    ("F", END); ("2~", INSERT); ("3~", DELETE); ("5~", PAGE_UP);
    ("6~", PAGE_DOWN); ("1;5C", CTRL_RIGHT); ("1;5D", CTRL_LEFT) ].

(** [SEQ.get(seq)] where [seq] may be [None], which is not a key. *)
Definition SEQ_get (seq : option string) : option Z :=
  match seq with
  | Some s => dict_get SEQ s
  | None => None
  end.

Definition ESC : string := String "027"%char EmptyString.
Definition ESC_SAVE_CURSOR : string := ESC ++ "[s".
Definition ESC_RESTORE_CURSOR : string := ESC ++ "[u".

Definition CS_PARAMETER : string := "0123456789:;<=>?".
Definition CS_INTERMEDIATE : string := String "034"%char "#$%&'()*+,-./".
Definition CS_FINAL : string :=
  "@ABCDEFGHIJKLMNOPQRSTUVWXYZ[\]^_`abcdefghijklmnopqrstuvwxyz{|}~".

(** [cls.find(next) >= 0] *)
Definition in_class (cls next : string) : bool := (0 <=? py_find cls next)%Z.

(** ** The decoder (lines 63-102) *)

(** The loop
<<
    while cls.find(next) >= 0:
      buf += next
      next = fd.read(1)
>>
    on the loop state [(buf, next, fd)]; [None] when [fuel] iterations were
    not enough. *)
Definition consume_body (st : string * string * stream)
  : string * string * stream :=
  let '(buf, next, fd) := st in
  let '(next', fd') := fd_read1 fd in
  (buf ++ next, next', fd').

Fixpoint consume (cls : string) (fuel : nat) (st : string * string * stream)
  : option (string * string * stream) :=
  let '(_, next, _) := st in
  if in_class cls next then
    match fuel with
    | 0 => None
    | S f => consume cls f (consume_body st)
    end
  else Some st.

Definition lift_loop {A : Type} (o : option A) : outcome A :=
  match o with
  | Some a => Done a
  | None => OutOfFuel
  end.

Definition esc2str (fuel : nat) (fd : stream) : outcome (option string * stream) :=
  let '(next, fd) := fd_read1 fd in
  if negb (next =? "[")%string then Done (None, fd)
  else
    let buf := EmptyString in
    let '(next, fd) := fd_read1 fd in
    st <- lift_loop (consume CS_PARAMETER fuel (buf, next, fd)) ;;
    '(buf, next, fd) <- lift_loop (consume CS_INTERMEDIATE fuel st) ;;
    if in_class CS_FINAL next then Done (Some (buf ++ next), fd)
    else Raised (MalformedEsc buf).

Definition parse_esc (fuel : nat) (fd : stream) : outcome (option Z * stream) :=
  '(seq, fd) <- esc2str fuel fd ;;
  Done (py_or (SEQ_get seq) UNKNOWN, fd).

Record Key : Type := mkKey { char : option string; cmd : option Z }.

(** [Key.__init__] *)
Definition Key_init (fuel : nat) (fd : stream) : outcome (Key * stream) :=
  let '(key, fd) := fd_read1 fd in
  if negb (key =? ESC)%string then Done (mkKey (Some key) None, fd)
  else
    '(c, fd) <- parse_esc fuel fd ;;
    Done (mkKey None c, fd).

Definition read (fuel : nat) (fd : stream) : outcome (Key * stream) :=
  Key_init fuel fd.

(** ** Word boundaries

    [re.finditer(r"\b", s)] yields one empty match at every position where
    exactly one of the characters before and after it is a word character;
    the positions before the first and after the last character count as
    non-word. Word characters are those matched by [\w] on [str] patterns:
    alphanumerics and the underscore (here for code points below 256). *)
Definition is_word (c : ascii) : bool :=
  let n := nat_of_ascii c in
  ((48 <=? n) && (n <=? 57)) || ((65 <=? n) && (n <=? 90)) || (n =? 95)
  || ((97 <=? n) && (n <=? 122))
  || (n =? 170) || (n =? 178) || (n =? 179) || (n =? 181) || (n =? 185)
  || (n =? 186) || ((188 <=? n) && (n <=? 190))
  || ((192 <=? n) && (n <=? 214)) || ((216 <=? n) && (n <=? 246))
  || (248 <=? n).

(** Boundaries of [s], which starts at position [i] and follows a character
    whose word-ness is [prev]. *)
Fixpoint boundaries_from (i : nat) (prev : bool) (s : string) : list nat :=
  match s with
  | EmptyString => if prev then [i] else []
  | String c r =>
      (if xorb prev (is_word c) then [i] else [])
      ++ boundaries_from (S i) (is_word c) r
  end.

(** [[m.start() for m in re.finditer(r"\b", s)]] *)
Definition word_boundaries (s : string) : list nat :=
  boundaries_from 0 false s.

(** [boundaries[-2].start()] and [boundaries[1].start()], both used under
    the guard [len(boundaries) > 1]. *)
Definition second_last (bs : list nat) : nat := nth (List.length bs - 2) bs 0.
Definition second (bs : list nat) : nat := nth 1 bs 0.

(** ** The editor (lines 108-264) *)

Record Editor : Type := mkEditor {
  maxlen : Z;
  pre : string;
  post : string;
  running : bool;
  out : string
}.

Definition set_pre (s : string) (e : Editor) : Editor :=
  mkEditor (maxlen e) s (post e) (running e) (out e).
Definition set_post (s : string) (e : Editor) : Editor :=
  mkEditor (maxlen e) (pre e) s (running e) (out e).
Definition set_running (b : bool) (e : Editor) : Editor :=
  mkEditor (maxlen e) (pre e) (post e) b (out e).

(** [emit(text)] *)
Definition emit (text : string) (e : Editor) : Editor :=
  mkEditor (maxlen e) (pre e) (post e) (running e) (out e ++ text).

(** [Editor.__init__(fd, max)]; [columns] is what
    [shutil.get_terminal_size().columns] returns. The buffer fields are set
    by [edit]. *)
Definition Editor_init (max : option Z) (columns : Z) : Editor :=
  let maxlen := py_or_int max (columns - 1)%Z in
  mkEditor maxlen EmptyString EmptyString false EmptyString.

Definition show (erase : nat) (e : Editor) : Editor :=
  let e := emit ESC_RESTORE_CURSOR e in
  let e := emit (pre e) e in
  let e := emit (post e) e in
  let e := emit (str_mul " " erase) e in
  let back := length (post e) + erase in
  if 0 <? back then emit (ESC ++ "[" ++ str_of_nat back ++ "D") e else e.

Definition handle_char (char : string) (e : Editor) : Editor :=
  if ((maxlen e <? 0) || (Z.of_nat (length (pre e ++ post e)) <? maxlen e))%Z
  then show 0 (set_pre (pre e ++ char) e)
  else e.

Definition left (e : Editor) : Editor :=
  if (pre e =? "")%string then e
  else
    let e := set_post (last_char (pre e) ++ post e) e in
    set_pre (drop_last (pre e)) e.

Definition right (e : Editor) : Editor :=
  if (post e =? "")%string then e
  else
    let e := set_pre (pre e ++ first_char (post e)) e in
    set_post (slice_from 1 (post e)) e.

Definition home (e : Editor) : Editor :=
  let e := set_post (pre e ++ post e) e in
  set_pre EmptyString e.

Definition end_ (e : Editor) : Editor :=
  let e := set_pre (pre e ++ post e) e in
  set_post EmptyString e.

Definition delete (e : Editor) : Editor :=
  let e := if 0 <? length (post e) then set_post (slice_from 1 (post e)) e
           else e in
  show 1 e.

Definition delete_word (e : Editor) : Editor :=
  let boundaries := word_boundaries (pre e) in
  if 1 <? List.length boundaries then
    let kill := length (pre e) - second_last boundaries in
    let e := set_pre (slice_to (second_last boundaries) (pre e)) e in
    show kill e
  else e.

Definition word_left (e : Editor) : Editor :=
  let boundaries := word_boundaries (pre e) in
  if 1 <? List.length boundaries then
    let e := set_post (slice_from (second_last boundaries) (pre e) ++ post e) e in
    let e := set_pre (slice_to (second_last boundaries) (pre e)) e in
    show 0 e
  else e.

Definition word_right (e : Editor) : Editor :=
  let boundaries := word_boundaries (post e) in
  if 1 <? List.length boundaries then
    let e := set_pre (pre e ++ slice_to (second boundaries) (post e)) e in
    let e := set_post (slice_from (second boundaries) (post e)) e in
    show 0 e
  else e.

Definition up (e : Editor) : Editor := e.
Definition down (e : Editor) : Editor := e.
Definition tab (e : Editor) : Editor := e.

Definition enter (e : Editor) : Editor := set_running false e.

Definition backspace (e : Editor) : Editor :=
  let e := if 0 <? length (pre e) then set_pre (drop_last (pre e)) e else e in
  show 1 e.

Definition kill_post (e : Editor) : Editor :=
  let l := length (post e) in
  let e := set_post EmptyString e in
  show l e.

(** The two dispatch tables built by [__init__]. *)
Definition key_cmds : list (string * (Editor -> Editor)) :=
  [ (String "010"%char EmptyString, enter);
    (String "009"%char EmptyString, tab);
    (String "127"%char EmptyString, backspace);
    (String "008"%char EmptyString, backspace);
    (String "011"%char EmptyString, kill_post);
    (String "023"%char EmptyString, delete_word) ].

Definition esc_cmds : list (Z * (Editor -> Editor)) :=
  [ (LEFT, left); (RIGHT, right); (HOME, home); (END, end_);
    (DELETE, delete); (CTRL_LEFT, word_left); (CTRL_RIGHT, word_right) ].

(** One iteration of the body of the [while self.running] loop of [edit]. *)
Definition edit_body (fuel : nat) (st : Editor * stream)
  : outcome (Editor * stream) :=
  let '(e, fd) := st in
  '(key, fd) <- read fuel fd ;;
  match char key with
  | Some c =>
      match dict_get key_cmds c with
      | Some cmdfunc => Done (cmdfunc e, fd)
      | None =>
          match ord c with
          | None => Raised OrdTypeError
          | Some n => if 32 <=? n then Done (handle_char c e, fd)
                      else Done (e, fd)
          end
      end
  | None =>
      match cmd key with
      | Some k =>
          match int_dict_get esc_cmds k with
          | Some cmdfunc => Done (show 0 (cmdfunc e), fd)
          | None => Done (e, fd)
          end
      | None => Done (e, fd)
      end
  end.

Fixpoint edit_loop (fuel : nat) (st : Editor * stream)
  : outcome (Editor * stream) :=
  if running (fst st) then
    match fuel with
    | 0 => OutOfFuel
    | S f => st' <- edit_body f st ;; edit_loop f st'
    end
  else Done st.

(** The statements of [edit] before its loop. *)
Definition edit_begin (text post0 : string) (e : Editor) : Editor :=
  let e := set_pre text e in
  let e := set_post post0 e in
  let e := emit ESC_SAVE_CURSOR e in
  let e := show 0 e in
  set_running true e.

(** [Editor.edit(text, post)], with [post0] for the argument [post]: the
    returned text, the final editor state and the unread input. *)
Definition edit (fuel : nat) (text post0 : string) (e : Editor) (fd : stream)
  : outcome (string * Editor * stream) :=
  '(e, fd) <- edit_loop fuel (edit_begin text post0 e, fd) ;;
  Done (pre e ++ post e, e, fd).

(** ** Terminal mode (lines 23-38)

    The attribute list that [termios.tcgetattr] returns and
    [termios.tcsetattr] takes. [ECHO] and [ICANON] stand for the constants
    [termios.ECHO] and [termios.ICANON], whose values depend on the platform.
    Python ints have no width: [&], [|] and [~] are [Z.land], [Z.lor] and
    [Z.lnot]. *)
Record termios_attr : Type := mkAttr {
  iflag : Z;
  oflag : Z;
  cflag : Z;
  lflag : Z;
  ispeed : Z;
  ospeed : Z;
  cc : list Z
}.

(** [raw_mode(raw, fd)] on the attributes of [fd]. *)
Definition raw_mode (ECHO ICANON : Z) (raw : bool) (tty : termios_attr)
  : termios_attr :=
  let '(mkAttr iflag oflag cflag lflag ispeed ospeed cc) := tty in
  let lflag :=
    if raw then
      let lflag := Z.land lflag (Z.lnot ECHO) in
      Z.land lflag (Z.lnot ICANON)
    else
      let lflag := Z.lor lflag ECHO in
      Z.lor lflag ICANON in
  mkAttr iflag oflag cflag lflag ispeed ospeed cc.

(** The process as far as [setup_raw] is concerned: the attributes of the
    terminal and the functions registered with [atexit], the last one
    registered first, which is the order in which the interpreter calls them
    when it exits. *)
Record process : Type := mkProcess {
  tty : termios_attr;
  exit_handlers : list (termios_attr -> termios_attr)
}.

(** [atexit.register(f)] *)
Definition atexit_register (f : termios_attr -> termios_attr) (p : process)
  : process :=
  mkProcess (tty p) (f :: exit_handlers p).

Definition setup_raw (ECHO ICANON : Z) (p : process) : process :=
  let p := atexit_register (raw_mode ECHO ICANON false) p in
  mkProcess (raw_mode ECHO ICANON true (tty p)) (exit_handlers p).

(** Interpreter exit: every registered function is called. *)
Definition run_exit (p : process) : process :=
  mkProcess (fold_left (fun t f => f t) (exit_handlers p) (tty p)) [].

(** ** Vocabulary of the properties *)

(** The one-character string that [fd.read(1)] returns for [c]. *)
Definition one (c : ascii) : string := String c EmptyString.

(** Every character of [run] is in the class [cls]. *)
Fixpoint all_in (cls run : string) : bool :=
  match run with
  | EmptyString => true
  | String c r => in_class cls (one c) && all_in cls r
  end.

(** [next = fd.read(1)] followed by a loop on [(buf, next, fd)]. *)
Definition start_loop (buf : string) (fd : stream) : string * string * stream :=
  (buf, fst (fd_read1 fd), snd (fd_read1 fd)).

(** The text of one render step as the specification gives it: restore the
    cursor, [p], [q], [erase] spaces and, unless there is nothing to go back
    over, one cursor-left sequence. *)
Definition frame (p q : string) (erase : nat) : string :=
  ESC ++ "[u" ++ p ++ q ++ str_mul " " erase
  ++ (if length q + erase =? 0 then ""
      else ESC ++ "[" ++ str_of_nat (length q + erase) ++ "D").

(** Combined length of the buffer, and the capacity invariant. *)
Definition total (e : Editor) : nat := length (pre e) + length (post e).

Definition bounded (e : Editor) : Prop := (Z.of_nat (total e) <= maxlen e)%Z.

(** [op] leads from a state within its non-negative [maxlen] to a state
    within the same [maxlen]. *)
Definition keeps_bound (op : Editor -> Editor) : Prop :=
  forall e : Editor,
    (0 <= maxlen e)%Z -> bounded e ->
    bounded (op e) /\ maxlen (op e) = maxlen e.

(** [op] never makes the buffer longer and leaves [maxlen] alone. *)
Definition never_grows (op : Editor -> Editor) : Prop :=
  forall e : Editor, total (op e) <= total e /\ maxlen (op e) = maxlen e.

(** A terminal is cooked when all bits of ECHO and ICANON are set. *)
Definition cooked (ECHO ICANON : Z) (t : termios_attr) : Prop :=
  Z.land (lflag t) (Z.lor ECHO ICANON) = Z.lor ECHO ICANON.

(** Any calls of [raw_mode] made while the process runs. *)
Definition later_calls (ECHO ICANON : Z) (toggles : list bool) (p : process)
  : process :=
  mkProcess (fold_left (fun t b => raw_mode ECHO ICANON b t) toggles (tty p))
    (exit_handlers p).

(** An input that ends inside a control sequence: after ESC [ it has only
    parameter bytes followed by intermediate bytes. *)
Definition truncated_csi (fd : stream) : Prop :=
  exists params inters : string,
    fd = ESC ++ "[" ++ params ++ inters
    /\ all_in CS_PARAMETER params = true
    /\ all_in CS_INTERMEDIATE inters = true.

(** Some character of [s] is a word character; all are. *)
Fixpoint has_word (s : string) : bool :=
  match s with
  | EmptyString => false
  | String c r => is_word c || has_word r
  end.

Fixpoint all_word (s : string) : bool :=
  match s with
  | EmptyString => true
  | String c r => is_word c && all_word r
  end.

(** The last character of [s] is a word character ([prev] stands for the
    character before [s]); the first character of [s] is. *)
Fixpoint last_is_word (prev : bool) (s : string) : bool :=
  match s with
  | EmptyString => prev
  | String c r => last_is_word (is_word c) r
  end.

Definition starts_with_word (s : string) : bool :=
  match s with
  | EmptyString => false
  | String c _ => is_word c
  end.

(** The last render step of [e'] wrote a frame that is at least as long as
    the line of [e] was, so that it covers every cell of the old line. *)
Definition repaints (e e' : Editor) : Prop :=
  exists erase : nat,
    out e' = out e ++ frame (pre e') (post e') erase
    /\ total e <= total e' + erase.

(** The characters the session loop inserts: code 32 and above, except
    the one key of [key_cmds] in that range, DEL. *)
Definition printable (c : ascii) : bool :=
  (32 <=? nat_of_ascii c) && negb (nat_of_ascii c =? 127).

Fixpoint all_printable (s : string) : bool :=
  match s with
  | EmptyString => true
  | String c r => printable c && all_printable r
  end.

(** [handle_char] on each character of [s] in turn. *)
Fixpoint type_chars (s : string) (e : Editor) : Editor :=
  match s with
  | EmptyString => e
  | String c r => type_chars r (handle_char (one c) e)
  end.

(** The part of [s] that fits into a buffer of capacity [maxlen] that
    already holds [used] characters: all of it when [maxlen] is negative. *)
Definition accepted (maxlen : Z) (used : nat) (s : string) : string :=
  if (maxlen <? 0)%Z then s else slice_to (Z.to_nat maxlen - used) s.

(** The control characters that the session loop drops or hands to [tab]:
    below 32 and none of backspace (8), newline (10), ctrl-K (11), ctrl-W
    (23) and ESC (27). *)
Definition ignored_control (c : ascii) : bool :=
  (nat_of_ascii c <? 32)
  && negb (existsb (Nat.eqb (nat_of_ascii c)) [8; 10; 11; 23; 27]).



(** * Properties *)

(** ** Strings *)

Lemma append_nil_r (s : string) : s ++ "" = s.
Proof. induction s as [|c s IH]; simpl; [reflexivity | now rewrite IH]. Qed.

Lemma append_assoc (a b c : string) : (a ++ b) ++ c = a ++ (b ++ c).
Proof. induction a as [|x a IH]; simpl; [reflexivity | now rewrite IH]. Qed.

Lemma length_append (a b : string) : length (a ++ b) = length a + length b.
Proof. induction a as [|x a IH]; simpl; [reflexivity | now rewrite IH]. Qed.

Lemma slice_to_from (n : nat) (s : string) : slice_to n s ++ slice_from n s = s.
Proof.
  revert s; induction n as [|n IH]; intros [|c s]; simpl; try reflexivity.
  now rewrite IH.
Qed.

Lemma length_slice_to (n : nat) (s : string) :
  n <= length s -> length (slice_to n s) = n.
Proof.
  revert s; induction n as [|n IH]; intros [|c s]; simpl; intros H;
    try reflexivity; try lia.
  rewrite IH; lia.
Qed.

Lemma length_slices (n : nat) (s : string) :
  length (slice_to n s) + length (slice_from n s) = length s.
Proof. now rewrite <- length_append, slice_to_from. Qed.

Lemma length_str_mul_space (n : nat) : length (str_mul " " n) = n.
Proof. induction n as [|n IH]; simpl; [reflexivity | now rewrite IH]. Qed.

(** ** The character classes of a control sequence *)

Ltac each_ascii c := destruct c as [[] [] [] [] [] [] [] []]; reflexivity.

Lemma in_class_empty (cls : string) : in_class cls "" = true.
Proof. destruct cls; reflexivity. Qed.

Lemma parameter_intermediate_disjoint (c : ascii) :
  in_class CS_PARAMETER (one c) && in_class CS_INTERMEDIATE (one c) = false.
Proof. each_ascii c. Qed.

Lemma parameter_final_disjoint (c : ascii) :
  in_class CS_PARAMETER (one c) && in_class CS_FINAL (one c) = false.
Proof. each_ascii c. Qed.

Lemma intermediate_final_disjoint (c : ascii) :
  in_class CS_INTERMEDIATE (one c) && in_class CS_FINAL (one c) = false.
Proof. each_ascii c. Qed.

(** The final-byte class is the range from '@' to '~'. *)
Lemma final_class_range (c : ascii) :
  in_class CS_FINAL (one c)
  = (64 <=? nat_of_ascii c) && (nat_of_ascii c <=? 126).
Proof. each_ascii c. Qed.

(** ** The consume loops of [esc2str] *)

Lemma consume_body_start (buf next : string) (fd : stream) :
  consume_body (buf, next, fd) = start_loop (buf ++ next) fd.
Proof. unfold consume_body, start_loop. now destruct (fd_read1 fd). Qed.

Lemma consume_stop (cls : string) (fuel : nat) (buf next : string) (fd : stream) :
  in_class cls next = false -> consume cls fuel (buf, next, fd) = Some (buf, next, fd).
Proof. intros H. destruct fuel; simpl; now rewrite H. Qed.

Lemma consume_step (cls : string) (fuel : nat) (buf next : string) (fd : stream) :
  in_class cls next = true ->
  consume cls (S fuel) (buf, next, fd) = consume cls fuel (start_loop (buf ++ next) fd).
Proof.
  intros H. rewrite <- consume_body_start.
  change (consume cls (S fuel) (buf, next, fd)) with
    (if in_class cls next then consume cls fuel (consume_body (buf, next, fd))
     else Some (buf, next, fd)).
  now rewrite H.
Qed.

(** A run of class characters followed by a character outside the class is
    consumed whole, and the loop stops on that character. *)
Lemma consume_run (cls : string) (c : ascii) (rest : stream) :
  in_class cls (one c) = false ->
  forall (run : string) (fuel : nat) (buf : string),
    all_in cls run = true ->
    length run <= fuel ->
    consume cls fuel (start_loop buf (run ++ String c rest))
    = Some (buf ++ run, one c, rest).
Proof.
  intros Hc run. induction run as [|a run IH]; intros fuel buf Hall Hlen.
  - unfold start_loop; simpl. rewrite append_nil_r. now apply consume_stop.
  - simpl in Hall. apply andb_prop in Hall as [Ha Hall].
    destruct fuel as [|fuel]; [simpl in Hlen; lia |].
    change (start_loop buf (String a run ++ String c rest))
      with (buf, one a, run ++ String c rest).
    rewrite consume_step by exact Ha.
    simpl in Hlen. rewrite (IH fuel (buf ++ one a) Hall) by lia.
    now rewrite append_assoc.
Qed.

(** At the end of the input the guard holds and the body changes nothing. *)
Lemma consume_exhausted (cls : string) (fuel : nat) (buf : string) :
  consume cls fuel (buf, "", "") = None.
Proof.
  induction fuel as [|fuel IH]; simpl; rewrite in_class_empty; [reflexivity |].
  rewrite append_nil_r. exact IH.
Qed.

(** More fuel does not change the result of a loop that stopped. *)
Lemma consume_more_fuel (cls : string) (fuel : nat) :
  forall st r, consume cls fuel st = Some r -> consume cls (S fuel) st = Some r.
Proof.
  induction fuel as [|fuel IH]; intros [[buf next] fd] r H.
  - simpl in *. destruct (in_class cls next); [discriminate | exact H].
  - change (consume cls (S fuel) (buf, next, fd)) with
      (if in_class cls next then consume cls fuel (consume_body (buf, next, fd))
       else Some (buf, next, fd)) in H.
    change (consume cls (S (S fuel)) (buf, next, fd)) with
      (if in_class cls next then consume cls (S fuel) (consume_body (buf, next, fd))
       else Some (buf, next, fd)).
    destruct (in_class cls next); [now apply IH | exact H].
Qed.

(** With too little fuel the loop over a run is still running; it never
    stops anywhere else than after the run. *)
Lemma consume_run_any_fuel (cls : string) (c : ascii) (rest : stream) :
  in_class cls (one c) = false ->
  forall (run : string) (fuel : nat) (buf : string),
    all_in cls run = true ->
    consume cls fuel (start_loop buf (run ++ String c rest)) = None
    \/ consume cls fuel (start_loop buf (run ++ String c rest))
       = Some (buf ++ run, one c, rest).
Proof.
  intros Hc run. induction run as [|a run IH]; intros fuel buf Hall.
  - right. apply (consume_run cls c rest Hc "" fuel buf eq_refl). simpl. lia.
  - simpl in Hall. apply andb_prop in Hall as [Ha Hall].
    change (start_loop buf (String a run ++ String c rest))
      with (buf, one a, run ++ String c rest).
    destruct fuel as [|fuel].
    + left. simpl. now rewrite Ha.
    + rewrite consume_step by exact Ha.
      destruct (IH fuel (buf ++ one a) Hall) as [-> | ->]; [now left | right].
      now rewrite append_assoc.
Qed.

(** A run of class characters that ends with the input never lets the loop
    stop. *)
Lemma consume_run_exhausted (cls : string) :
  forall (run : string) (fuel : nat) (buf : string),
    all_in cls run = true -> consume cls fuel (start_loop buf run) = None.
Proof.
  induction run as [|a run IH]; intros fuel buf Hall.
  - apply consume_exhausted.
  - simpl in Hall. apply andb_prop in Hall as [Ha Hall].
    change (start_loop buf (String a run)) with (buf, one a, run).
    destruct fuel as [|fuel].
    + simpl. now rewrite Ha.
    + rewrite consume_step by exact Ha. now apply IH.
Qed.

(** ** Decoding one key *)

Lemma esc2str_csi_unfold (fuel : nat) (fd : stream) :
  esc2str fuel ("[" ++ fd)
  = (st <- lift_loop (consume CS_PARAMETER fuel (start_loop "" fd)) ;;
     '(buf, next, fd') <- lift_loop (consume CS_INTERMEDIATE fuel st) ;;
     if in_class CS_FINAL next then Done (Some (buf ++ next), fd')
     else Raised (MalformedEsc buf)).
Proof. unfold esc2str, start_loop. simpl. now destruct (fd_read1 fd). Qed.

Lemma esc2str_not_csi (fuel : nat) (next : ascii) (rest : stream) :
  one next <> "[" -> esc2str fuel (String next rest) = Done (None, rest).
Proof.
  intros H. unfold esc2str. simpl fd_read1. cbv iota.
  apply eqb_neq in H. fold (one next). now rewrite H.
Qed.

(** What [esc2str] does after the introducer on a parameter run, an
    intermediate run and one more character [c]. *)
Lemma esc2str_csi (params inters : string) (c : ascii) (rest : stream) (fuel : nat) :
  all_in CS_PARAMETER params = true ->
  all_in CS_INTERMEDIATE inters = true ->
  in_class CS_PARAMETER (first_char (inters ++ one c)) = false ->
  in_class CS_INTERMEDIATE (one c) = false ->
  length params <= fuel ->
  length inters <= fuel ->
  esc2str fuel ("[" ++ params ++ inters ++ String c rest)
  = if in_class CS_FINAL (one c)
    then Done (Some (params ++ inters ++ one c), rest)
    else Raised (MalformedEsc (params ++ inters)).
Proof.
  intros Hp Hi Hfirst Hc Lp Li.
  rewrite esc2str_csi_unfold.
  assert (exists c1 rest1, inters ++ String c rest = String c1 rest1
                           /\ first_char (inters ++ one c) = one c1)
    as (c1 & rest1 & Hsplit & Hc1).
  { destruct inters as [|i inters]; simpl; eauto. }
  rewrite Hc1 in Hfirst. rewrite Hsplit.
  rewrite (consume_run CS_PARAMETER c1 rest1 Hfirst params fuel "" Hp Lp).
  simpl lift_loop. simpl bind.
  change (params, one c1, rest1) with (start_loop params (String c1 rest1)).
  rewrite <- Hsplit.
  rewrite (consume_run CS_INTERMEDIATE c rest Hc inters fuel params Hi Li).
  simpl. now rewrite append_assoc.
Qed.

Lemma read_esc (fuel : nat) (fd : stream) :
  read fuel (ESC ++ fd)
  = ('(c, fd') <- parse_esc fuel fd ;; Done (mkKey None c, fd')).
Proof. reflexivity. Qed.

Lemma read_literal (fuel : nat) (c : ascii) (rest : stream) :
  one c <> ESC ->
  read fuel (String c rest) = Done (mkKey (Some (one c)) None, rest).
Proof.
  intros H. unfold read, Key_init. simpl fd_read1. cbv iota.
  apply eqb_neq in H. fold (one c). now rewrite H.
Qed.

Lemma read_csi (params inters : string) (c : ascii) (rest : stream) (fuel : nat) :
  all_in CS_PARAMETER params = true ->
  all_in CS_INTERMEDIATE inters = true ->
  in_class CS_PARAMETER (first_char (inters ++ one c)) = false ->
  in_class CS_INTERMEDIATE (one c) = false ->
  length params <= fuel ->
  length inters <= fuel ->
  read fuel (ESC ++ "[" ++ params ++ inters ++ String c rest)
  = if in_class CS_FINAL (one c)
    then Done (mkKey None
                 (py_or (dict_get SEQ (params ++ inters ++ one c)) UNKNOWN),
               rest)
    else Raised (MalformedEsc (params ++ inters)).
Proof.
  intros Hp Hi Hfirst Hc Lp Li.
  rewrite read_esc. unfold parse_esc.
  rewrite (esc2str_csi params inters c rest fuel Hp Hi Hfirst Hc Lp Li).
  now destruct (in_class CS_FINAL (one c)).
Qed.

(** A final byte ends both runs: it belongs to neither of the other
    classes, and neither does an intermediate byte belong to the parameter
    class. *)
Lemma final_ends_runs (inters : string) (f : ascii) :
  all_in CS_INTERMEDIATE inters = true ->
  in_class CS_FINAL (one f) = true ->
  in_class CS_PARAMETER (first_char (inters ++ one f)) = false
  /\ in_class CS_INTERMEDIATE (one f) = false.
Proof.
  intros Hi Hf. split.
  - destruct inters as [|i inters]; simpl first_char.
    + pose proof (parameter_final_disjoint f) as D. fold (one f).
      rewrite Hf, andb_true_r in D. exact D.
    + simpl in Hi. apply andb_prop in Hi as [Hi _].
      pose proof (parameter_intermediate_disjoint i) as D. fold (one i).
      rewrite Hi, andb_true_r in D. exact D.
  - pose proof (intermediate_final_disjoint f) as D.
    rewrite Hf, andb_true_r in D. exact D.
Qed.

(** Every value of the table is one of the twelve codes, and none is 0. *)
Lemma SEQ_values (s : string) (v : Z) :
  dict_get SEQ s = Some v -> In v command_codes /\ truthy (Some v) = true.
Proof.
  unfold SEQ. simpl dict_get.
  repeat match goal with
         | |- context [if ?b then _ else _] => destruct b
         end;
    intros H; try discriminate; injection H as <-;
    (split; [unfold command_codes; simpl; tauto | reflexivity]).
Qed.

Lemma parse_result (seq : option string) :
  py_or (SEQ_get seq) UNKNOWN = UNKNOWN
  \/ exists c, py_or (SEQ_get seq) UNKNOWN = Some c /\ In c command_codes.
Proof.
  destruct seq as [s|]; [| now left]. unfold SEQ_get.
  destruct (dict_get SEQ s) as [v|] eqn:E; [| now left].
  apply SEQ_values in E as [Hin Ht]. right. exists v.
  unfold py_or. now rewrite Ht.
Qed.

(** A result, returned or raised, is the same with more fuel. *)
Lemma esc2str_more_fuel (fuel : nat) (fd : stream) :
  esc2str fuel fd <> OutOfFuel -> esc2str (S fuel) fd = esc2str fuel fd.
Proof.
  unfold esc2str. destruct (fd_read1 fd) as [next fd1].
  destruct (negb (next =? "[")%string); [reflexivity |].
  destruct (fd_read1 fd1) as [next1 fd2].
  destruct (consume CS_PARAMETER fuel ("", next1, fd2)) as [st|] eqn:E1;
    [| intros H; now elim H].
  rewrite (consume_more_fuel _ _ _ _ E1). cbn [lift_loop bind].
  destruct (consume CS_INTERMEDIATE fuel st) as [st2|] eqn:E2;
    [| intros H; now elim H].
  now rewrite (consume_more_fuel _ _ _ _ E2).
Qed.

Lemma read_more_fuel (fuel : nat) (fd : stream) :
  read fuel fd <> OutOfFuel -> read (S fuel) fd = read fuel fd.
Proof.
  unfold read, Key_init. destruct (fd_read1 fd) as [key fd1].
  destruct (negb (key =? ESC)%string); [reflexivity |].
  unfold parse_esc. intros H.
  rewrite esc2str_more_fuel; [reflexivity |].
  intros E. apply H. now rewrite E.
Qed.

(** A control sequence that the end of the input cuts in its parameter or
    intermediate run keeps [read] in one of the two loops. *)
Lemma read_truncated_csi (params inters : string) (fuel : nat) :
  all_in CS_PARAMETER params = true ->
  all_in CS_INTERMEDIATE inters = true ->
  read fuel (ESC ++ "[" ++ params ++ inters) = OutOfFuel.
Proof.
  intros Hp Hi. rewrite read_esc. unfold parse_esc.
  rewrite esc2str_csi_unfold.
  destruct inters as [|i inters].
  - rewrite append_nil_r, consume_run_exhausted by exact Hp. reflexivity.
  - simpl in Hi. apply andb_prop in Hi as [Hi1 Hi].
    assert (in_class CS_PARAMETER (one i) = false) as Hip.
    { pose proof (parameter_intermediate_disjoint i) as D.
      rewrite Hi1, andb_true_r in D. exact D. }
    destruct (consume_run_any_fuel CS_PARAMETER i inters Hip params fuel "" Hp)
      as [-> | ->]; [reflexivity |].
    cbn [lift_loop bind append].
    change (params, one i, inters) with (start_loop params (String i inters)).
    rewrite consume_run_exhausted; [reflexivity |].
    simpl. now rewrite Hi1.
Qed.

(** C1 (as the code has it). When the byte after ESC is not '[', reading a
    key raises nothing: [esc2str] returns None and the key is UNKNOWN with no
    character. An error is raised, and reaches the caller of [read], when
    after the introducer, a parameter run and an intermediate run the next
    byte is outside the final-byte class. *)
Theorem read_malformed_sequence :
  (forall (fuel : nat) (next : ascii) (rest : stream),
      one next <> "[" ->
      read fuel (ESC ++ String next rest) = Done (mkKey None UNKNOWN, rest))
  /\
  (forall (fuel : nat) (params inters : string) (c : ascii) (rest : stream),
      all_in CS_PARAMETER params = true ->
      all_in CS_INTERMEDIATE inters = true ->
      in_class CS_PARAMETER (first_char (inters ++ one c)) = false ->
      in_class CS_INTERMEDIATE (one c) = false ->
      in_class CS_FINAL (one c) = false ->
      length params <= fuel ->
      length inters <= fuel ->
      read fuel (ESC ++ "[" ++ params ++ inters ++ String c rest)
      = Raised (MalformedEsc (params ++ inters))).
Proof.
  split.
  - intros fuel next rest H. rewrite read_esc. unfold parse_esc.
    now rewrite esc2str_not_csi.
  - intros fuel params inters c rest Hp Hi Hfirst Hc Hf Lp Li.
    rewrite read_csi by assumption. now rewrite Hf.
Qed.

Lemma read_malformed_sequence_witness :
  read 2 (ESC ++ "OP") = Done (mkKey None UNKNOWN, "P")
  /\ read 2 (ESC ++ "[12#" ++ ESC ++ "x") = Raised (MalformedEsc "12#").
Proof.
  split.
  - apply (proj1 read_malformed_sequence 2 "O"%char "P"). discriminate.
  - apply (proj2 read_malformed_sequence 2 "12" "#" "027"%char "x");
      try reflexivity; simpl; lia.
Defined.

(** C1, counterexample: ESC followed by 'O' (the start of an SS3 function-key
    sequence) is decoded, without any error, to the key that has neither a
    character nor a command. *)
Lemma esc_without_csi_is_not_an_error :
  read 0 (ESC ++ "OP") = Done (mkKey None UNKNOWN, "P")
  /\ (forall fuel e, read fuel (ESC ++ "OP") <> Raised e).
Proof.
  split; [reflexivity |].
  intros fuel e. now destruct fuel.
Qed.

(** C2 (as the code has it). A key that [read] returns never has both fields
    present. Either its character field holds the string that was read, which
    is not ESC, and its command is absent; or ESC was read, the character is
    absent, and the command is one of the twelve codes or is UNKNOWN, which is
    None: for UNKNOWN both fields are absent. *)
Theorem read_key_shape (fuel : nat) (fd fd' : stream) (k : Key) :
  read fuel fd = Done (k, fd') ->
  (char k = Some (fst (fd_read1 fd)) /\ fst (fd_read1 fd) <> ESC
   /\ cmd k = None)
  \/
  (char k = None /\ fst (fd_read1 fd) = ESC
   /\ (cmd k = UNKNOWN \/ exists c, cmd k = Some c /\ In c command_codes)).
Proof.
  unfold read, Key_init.
  destruct (fd_read1 fd) as [key fd1] eqn:R. simpl fst.
  destruct (key =? ESC)%string eqn:E; simpl negb; cbv iota.
  - apply eqb_eq in E. unfold parse_esc.
    destruct (esc2str fuel fd1) as [[seq fd2]| |]; simpl; try discriminate.
    intros H. injection H as <- <-. right. simpl.
    repeat split; trivial. apply parse_result.
  - apply eqb_neq in E. intros H. injection H as <- <-. left. simpl. auto.
Qed.

Lemma read_key_shape_witness :
  (char (mkKey None (Some CTRL_LEFT)) = Some (fst (fd_read1 (ESC ++ "[1;5D")))
   /\ fst (fd_read1 (ESC ++ "[1;5D")) <> ESC
   /\ cmd (mkKey None (Some CTRL_LEFT)) = None)
  \/
  (char (mkKey None (Some CTRL_LEFT)) = None
   /\ fst (fd_read1 (ESC ++ "[1;5D")) = ESC
   /\ (cmd (mkKey None (Some CTRL_LEFT)) = UNKNOWN
       \/ exists c, cmd (mkKey None (Some CTRL_LEFT)) = Some c
                    /\ In c command_codes)).
Proof.
  apply (read_key_shape 3 (ESC ++ "[1;5D") "" (mkKey None (Some CTRL_LEFT))).
  reflexivity.
Defined.

(** C2, counterexample: the well-formed sequence ESC [ Z is not in the table;
    the key returned for it has no character and no command. *)
Lemma unknown_key_has_neither_field :
  read 0 (ESC ++ "[Z") = Done (mkKey None UNKNOWN, "")
  /\ char (mkKey None UNKNOWN) = None
  /\ cmd (mkKey None UNKNOWN) = None.
Proof. repeat split. Qed.

(** C4. ESC [ A decodes to UP, ESC [ 3 ~ to DELETE, ESC [ 1 ; 5 C to
    CTRL_RIGHT; a byte other than ESC decodes to the key holding that byte;
    and a control sequence made of parameter bytes, intermediate bytes and a
    final byte whose body is not in the table decodes to UNKNOWN, with no
    error. *)
Theorem decode_key :
  (forall fuel rest,
      read fuel (ESC ++ "[A" ++ rest) = Done (mkKey None (Some UP), rest))
  /\ (forall fuel rest,
         read (1 + fuel) (ESC ++ "[3~" ++ rest)
         = Done (mkKey None (Some DELETE), rest))
  /\ (forall fuel rest,
         read (3 + fuel) (ESC ++ "[1;5C" ++ rest)
         = Done (mkKey None (Some CTRL_RIGHT), rest))
  /\ (forall fuel rest, read fuel ("a" ++ rest) = Done (mkKey (Some "a") None, rest))
  /\ (forall fuel (c : ascii) rest,
         one c <> ESC ->
         read fuel (String c rest) = Done (mkKey (Some (one c)) None, rest))
  /\ (forall fuel (params inters : string) (f : ascii) rest,
         all_in CS_PARAMETER params = true ->
         all_in CS_INTERMEDIATE inters = true ->
         in_class CS_FINAL (one f) = true ->
         length params <= fuel ->
         length inters <= fuel ->
         dict_get SEQ (params ++ inters ++ one f) = None ->
         read fuel (ESC ++ "[" ++ params ++ inters ++ String f rest)
         = Done (mkKey None UNKNOWN, rest)).
Proof.
  repeat apply conj.
  - intros fuel rest.
    exact (read_csi "" "" "A"%char rest fuel eq_refl eq_refl eq_refl eq_refl
             (Nat.le_0_l _) (Nat.le_0_l _)).
  - intros fuel rest.
    refine (read_csi "3" "" "~"%char rest (1 + fuel) eq_refl eq_refl eq_refl
              eq_refl _ _); simpl; lia.
  - intros fuel rest.
    refine (read_csi "1;5" "" "C"%char rest (3 + fuel) eq_refl eq_refl eq_refl
              eq_refl _ _); simpl; lia.
  - intros fuel rest. now apply read_literal.
  - intros fuel c rest H. now apply read_literal.
  - intros fuel params inters f rest Hp Hi Hf Lp Li Hnone.
    destruct (final_ends_runs inters f Hi Hf) as [Hfirst Hc].
    rewrite read_csi by assumption. now rewrite Hf, Hnone.
Qed.

Lemma decode_key_witness :
  read 0 ("q" ++ "rs") = Done (mkKey (Some "q") None, "rs")
  /\ read 2 (ESC ++ "[" ++ "25" ++ "$" ++ String "p" "x")
     = Done (mkKey None UNKNOWN, "x").
Proof.
  destruct decode_key as (_ & _ & _ & _ & Hlit & Hunk). split.
  - apply (Hlit 0 "q"%char "rs"). discriminate.
  - apply (Hunk 2 "25" "$" "p"%char "x"); try reflexivity; simpl; lia.
Defined.

(** C10. When the input ends right after ESC [, the guard of the parameter
    loop holds for the empty string that [read(1)] returns, the loop body
    leaves the loop state as it was, and so no number of iterations ends the
    loop: [esc2str] and [read] neither return nor raise. *)
Theorem esc2str_exhausted_never_ends :
  in_class CS_PARAMETER (fst (fd_read1 "")) = true
  /\ (forall buf, consume_body (buf, "", "") = (buf, "", ""))
  /\ (forall fuel, esc2str fuel "[" = OutOfFuel)
  /\ (forall fuel, read fuel (ESC ++ "[") = OutOfFuel).
Proof.
  assert (forall fuel, esc2str fuel "[" = OutOfFuel) as H.
  { intros fuel. change (esc2str fuel "[") with (esc2str fuel ("[" ++ "")).
    rewrite (esc2str_csi_unfold fuel "").
    unfold start_loop. simpl fst. simpl snd.
    now rewrite consume_exhausted. }
  repeat apply conj.
  - reflexivity.
  - intros buf. simpl. now rewrite append_nil_r.
  - exact H.
  - intros fuel. rewrite read_esc. unfold parse_esc. now rewrite H.
Qed.

(** ** The renderer *)

Lemma show_state (erase : nat) (e : Editor) :
  pre (show erase e) = pre e /\ post (show erase e) = post e
  /\ maxlen (show erase e) = maxlen e /\ running (show erase e) = running e.
Proof. unfold show. now destruct (0 <? _). Qed.

Lemma show_out (erase : nat) (e : Editor) :
  out (show erase e) = out e ++ frame (pre e) (post e) erase.
Proof.
  unfold show, frame, emit, ESC_RESTORE_CURSOR. cbn [pre post out].
  destruct (length (post e) + erase) as [|back]; cbn [Nat.ltb Nat.leb Nat.eqb out];
    rewrite ?append_assoc, ?append_nil_r; reflexivity.
Qed.

(** ** Word boundaries *)

Lemma boundaries_from_bound (s : string) :
  forall (i : nat) (prev : bool) (b : nat),
    In b (boundaries_from i prev s) -> b <= i + length s.
Proof.
  induction s as [|c s IH]; intros i prev b H; simpl in H.
  - destruct prev; simpl in H; [destruct H as [<- | []]; lia | contradiction].
  - apply in_app_or in H as [H | H].
    + destruct (xorb prev (is_word c)); simpl in H;
        [destruct H as [<- | []]; lia | contradiction].
    + apply IH in H. simpl. lia.
Qed.

Lemma second_last_bound (s : string) :
  1 < List.length (word_boundaries s) ->
  second_last (word_boundaries s) <= length s.
Proof.
  intros H. apply (boundaries_from_bound s 0 false).
  apply nth_In. fold (word_boundaries s). lia.
Qed.

Lemma length_slice_from (n : nat) (s : string) :
  length (slice_from n s) = length s - length (slice_to n s).
Proof. pose proof (length_slices n s). lia. Qed.

(** ** The edit buffer *)

Lemma show_total (erase : nat) (e : Editor) :
  total (show erase e) = total e /\ maxlen (show erase e) = maxlen e.
Proof.
  unfold total. destruct (show_state erase e) as (-> & -> & -> & _). auto.
Qed.

Lemma never_grows_keeps_bound (op : Editor -> Editor) :
  never_grows op -> keeps_bound op.
Proof.
  intros H e _ B. destruct (H e) as [T M]. unfold bounded in *.
  rewrite M. split; [lia | reflexivity].
Qed.

Lemma left_never_grows : never_grows left.
Proof.
  intros e. unfold left. destruct (pre e =? "")%string; [auto |].
  unfold total; cbn [pre post maxlen set_pre set_post].
  unfold last_char, drop_last. rewrite length_append.
  pose proof (length_slices (length (pre e) - 1) (pre e)). split; [lia | reflexivity].
Qed.

Lemma right_never_grows : never_grows right.
Proof.
  intros e. unfold right. destruct (post e =? "")%string; [auto |].
  unfold total; cbn [pre post maxlen set_pre set_post].
  unfold first_char. rewrite length_append.
  pose proof (length_slices 1 (post e)). split; [lia | reflexivity].
Qed.

Lemma home_never_grows : never_grows home.
Proof.
  intros e. unfold home, total; cbn [pre post maxlen set_pre set_post].
  rewrite length_append. simpl. split; [lia | reflexivity].
Qed.

Lemma end_never_grows : never_grows end_.
Proof.
  intros e. unfold end_, total; cbn [pre post maxlen set_pre set_post].
  rewrite length_append. simpl. split; [lia | reflexivity].
Qed.

Lemma delete_never_grows : never_grows delete.
Proof.
  intros e. unfold delete.
  match goal with |- context [show 1 ?x] =>
    destruct (show_total 1 x) as [-> ->] end.
  destruct (0 <? length (post e)); [| auto].
  unfold total; cbn [pre post maxlen set_pre set_post].
  pose proof (length_slices 1 (post e)). split; [lia | reflexivity].
Qed.

Lemma backspace_never_grows : never_grows backspace.
Proof.
  intros e. unfold backspace.
  match goal with |- context [show 1 ?x] =>
    destruct (show_total 1 x) as [-> ->] end.
  destruct (0 <? length (pre e)); [| auto].
  unfold total, drop_last; cbn [pre post maxlen set_pre set_post].
  pose proof (length_slices (length (pre e) - 1) (pre e)). split; [lia | reflexivity].
Qed.

Lemma kill_post_never_grows : never_grows kill_post.
Proof.
  intros e. unfold kill_post.
  match goal with |- context [show ?k ?x] =>
    destruct (show_total k x) as [-> ->] end.
  unfold total; cbn [pre post maxlen set_pre set_post]. simpl. split; [lia | reflexivity].
Qed.

Lemma delete_word_never_grows : never_grows delete_word.
Proof.
  intros e. unfold delete_word. destruct (1 <? _); [| auto].
  match goal with |- context [show ?k ?x] =>
    destruct (show_total k x) as [-> ->] end.
  unfold total; cbn [pre post maxlen set_pre set_post].
  pose proof (length_slices (second_last (word_boundaries (pre e))) (pre e)).
  split; [lia | reflexivity].
Qed.

Lemma word_left_never_grows : never_grows word_left.
Proof.
  intros e. unfold word_left. destruct (1 <? _); [| auto].
  match goal with |- context [show ?k ?x] =>
    destruct (show_total k x) as [-> ->] end.
  unfold total; cbn [pre post maxlen set_pre set_post]. rewrite length_append.
  pose proof (length_slices (second_last (word_boundaries (pre e))) (pre e)).
  split; [lia | reflexivity].
Qed.

Lemma word_right_never_grows : never_grows word_right.
Proof.
  intros e. unfold word_right. destruct (1 <? _); [| auto].
  match goal with |- context [show ?k ?x] =>
    destruct (show_total k x) as [-> ->] end.
  unfold total; cbn [pre post maxlen set_pre set_post]. rewrite length_append.
  pose proof (length_slices (second (word_boundaries (post e))) (post e)).
  split; [lia | reflexivity].
Qed.

Lemma handle_char_keeps_bound (c : string) :
  length c = 1 -> keeps_bound (handle_char c).
Proof.
  intros Hc e _ B. unfold handle_char. rewrite length_append.
  destruct (maxlen e <? 0)%Z eqn:Neg; simpl orb.
  - unfold bounded in B. apply Z.ltb_lt in Neg. lia.
  - destruct (Z.of_nat (length (pre e) + length (post e)) <? maxlen e)%Z eqn:Room;
      [| auto].
    apply Z.ltb_lt in Room. unfold bounded.
    match goal with |- context [show 0 ?x] =>
      destruct (show_total 0 x) as [-> ->] end.
    unfold total; cbn [pre post maxlen set_pre set_post].
    rewrite length_append, Hc. split; [lia | reflexivity].
Qed.

Lemma str_mul_space_get (n i : nat) :
  i < n -> get i (str_mul " " n) = Some " "%char.
Proof.
  revert i; induction n as [|n IH]; intros i H; [lia |].
  destruct i as [|i]; simpl; [reflexivity | apply IH; lia].
Qed.

(** C8. One render step appends to the output, in this order, ESC [ u, [pre],
    [post], [erase] spaces and, exactly when len(post) + erase is positive,
    ESC [ N D with N = len(post) + erase written in decimal; it emits nothing
    else and leaves the buffer as it is. *)
Theorem show_emits (erase : nat) (e : Editor) :
  out (show erase e)
  = out e ++ ESC ++ "[u" ++ pre e ++ post e ++ str_mul " " erase
    ++ (if length (post e) + erase =? 0 then ""
        else ESC ++ "[" ++ str_of_nat (length (post e) + erase) ++ "D")
  /\ length (str_mul " " erase) = erase
  /\ (forall i, i < erase -> get i (str_mul " " erase) = Some " "%char)
  /\ NilEmpty.uint_of_string (str_of_nat (length (post e) + erase))
     = Some (Nat.to_uint (length (post e) + erase))
  /\ pre (show erase e) = pre e
  /\ post (show erase e) = post e.
Proof.
  destruct (show_state erase e) as (Hpre & Hpost & _).
  repeat apply conj; trivial.
  - apply show_out.
  - apply length_str_mul_space.
  - intros i. apply str_mul_space_get.
  - apply NilEmpty.usu.
Qed.

(** C3 (as the code has it). [delete] and [backspace] always redraw with one
    erased cell, whether or not there was a character to remove: [delete]
    drops the first character of [post] if there is one, [backspace] the last
    character of [pre] if there is one, and both then render with erase = 1. *)
Theorem delete_backspace_erase_one (e : Editor) :
  (pre (delete e) = pre e
   /\ post (delete e) = slice_from 1 (post e)
   /\ out (delete e) = out e ++ frame (pre e) (slice_from 1 (post e)) 1)
  /\
  (pre (backspace e) = drop_last (pre e)
   /\ post (backspace e) = post e
   /\ out (backspace e) = out e ++ frame (drop_last (pre e)) (post e) 1).
Proof.
  split.
  - unfold delete.
    match goal with |- context [show 1 ?x] =>
      destruct (show_state 1 x) as (-> & -> & _); rewrite (show_out 1 x) end.
    destruct (post e) as [|c q] eqn:E; simpl; rewrite ?E; auto.
  - unfold backspace.
    match goal with |- context [show 1 ?x] =>
      destruct (show_state 1 x) as (-> & -> & _); rewrite (show_out 1 x) end.
    destruct (pre e) as [|c p] eqn:E.
    + change (0 <? length "") with false. cbv iota. rewrite E. auto.
    + change (0 <? length (String c p)) with true. cbv iota. auto.
Qed.

(** C3, counterexample: with nothing after the cursor [delete] still writes
    one space and moves back over it, and with nothing before the cursor so
    does [backspace]; a render step with erase = 0 would have written
    neither. *)
Lemma delete_with_empty_post_erases :
  post (mkEditor 10 "ab" "" true "") = ""
  /\ out (delete (mkEditor 10 "ab" "" true "")) = ESC ++ "[uab " ++ ESC ++ "[1D"
  /\ out (show 0 (mkEditor 10 "ab" "" true "")) = ESC ++ "[uab"
  /\ pre (mkEditor 10 "" "cd" true "") = ""
  /\ out (backspace (mkEditor 10 "" "cd" true "")) = ESC ++ "[ucd " ++ ESC ++ "[3D"
  /\ out (show 0 (mkEditor 10 "" "cd" true "")) = ESC ++ "[ucd" ++ ESC ++ "[2D".
Proof. repeat split. Qed.

(** C5. With [maxlen >= 0] and [len(pre) + len(post) == maxlen],
    [handle_char] changes nothing: the buffer, and the output as well, are
    as before. The handler has no failing operation, so nothing is raised. *)
Theorem insert_at_capacity (e : Editor) (c : string) :
  (0 <= maxlen e)%Z ->
  Z.of_nat (length (pre e) + length (post e)) = maxlen e ->
  handle_char c e = e
  /\ pre (handle_char c e) = pre e
  /\ post (handle_char c e) = post e.
Proof.
  intros Hmax Hfull.
  assert (handle_char c e = e) as ->; [| auto].
  unfold handle_char. rewrite length_append, Hfull.
  rewrite Z.ltb_irrefl.
  destruct (maxlen e <? 0)%Z eqn:Neg; [apply Z.ltb_lt in Neg; lia | reflexivity].
Qed.

Lemma insert_at_capacity_witness :
  handle_char "x" (mkEditor 3 "ab" "c" true "") = mkEditor 3 "ab" "c" true ""
  /\ handle_char "x" (mkEditor 0 "" "" true "") = mkEditor 0 "" "" true "".
Proof.
  split.
  - apply (insert_at_capacity (mkEditor 3 "ab" "c" true "") "x");
      [simpl; lia | reflexivity].
  - apply (insert_at_capacity (mkEditor 0 "" "" true "") "x");
      [simpl; lia | reflexivity].
Defined.

(** C6. From a state with [maxlen >= 0] and [len(pre) + len(post) <= maxlen],
    each primitive operation leads to a state within the same bound. Only
    inserting tests the bound; the other ten never make the buffer longer. *)
Theorem primitives_keep_bound :
  (forall c : string, length c = 1 -> keeps_bound (handle_char c))
  /\ keeps_bound left /\ keeps_bound right /\ keeps_bound home
  /\ keeps_bound end_ /\ keeps_bound delete /\ keeps_bound backspace
  /\ keeps_bound kill_post /\ keeps_bound delete_word
  /\ keeps_bound word_left /\ keeps_bound word_right
  /\ Forall never_grows
       [left; right; home; end_; delete; backspace; kill_post; delete_word;
        word_left; word_right].
Proof.
  pose proof left_never_grows. pose proof right_never_grows.
  pose proof home_never_grows. pose proof end_never_grows.
  pose proof delete_never_grows. pose proof backspace_never_grows.
  pose proof kill_post_never_grows. pose proof delete_word_never_grows.
  pose proof word_left_never_grows. pose proof word_right_never_grows.
  split; [exact handle_char_keeps_bound |].
  repeat (split; [now apply never_grows_keeps_bound |]).
  repeat (apply Forall_cons; [assumption |]). apply Forall_nil.
Qed.

Lemma primitives_keep_bound_witness :
  bounded (handle_char "x" (mkEditor 4 "ab" "c" true ""))
  /\ bounded (handle_char "x" (mkEditor 3 "ab" "c" true ""))
  /\ bounded (word_left (mkEditor 5 "ab cd" "" true "")).
Proof.
  destruct primitives_keep_bound as (Hins & _ & _ & _ & _ & _ & _ & _ & _ & Hwl & _).
  repeat apply conj.
  - apply (Hins "x" eq_refl (mkEditor 4 "ab" "c" true ""));
      unfold bounded; simpl; lia.
  - apply (Hins "x" eq_refl (mkEditor 3 "ab" "c" true ""));
      unfold bounded; simpl; lia.
  - apply (Hwl (mkEditor 5 "ab cd" "" true ""));
      unfold bounded; simpl; lia.
Defined.

(** ** The session loop *)

Lemma edit_loop_stopped (fuel : nat) (st : Editor * stream) :
  running (fst st) = false -> edit_loop fuel st = Done st.
Proof. intros H. destruct fuel; simpl; now rewrite H. Qed.

Lemma edit_loop_step (fuel : nat) (st : Editor * stream) :
  running (fst st) = true ->
  edit_loop (S fuel) st = (st' <- edit_body fuel st ;; edit_loop fuel st').
Proof. intros H. simpl. now rewrite H. Qed.

(** A character that is bound in [key_cmds] runs its handler. *)
Lemma edit_body_literal (fuel : nat) (e : Editor) (c : ascii) (rest : stream)
      (handler : Editor -> Editor) :
  one c <> ESC ->
  dict_get key_cmds (one c) = Some handler ->
  edit_body fuel (e, String c rest) = Done (handler e, rest).
Proof.
  intros Hc Hk. unfold edit_body. rewrite read_literal by exact Hc.
  cbn [bind char]. now rewrite Hk.
Qed.

(** C7. With at least two word boundaries in [pre], [delete_word] removes
    the text from the second-to-last boundary to the end of [pre], leaves
    [post] alone, and renders with the removed length as erase count; with
    fewer than two boundaries it changes nothing. A session started on
    ("ab cd", "") that reads ctrl-W and then newline returns "ab ". *)
Theorem delete_word_removes_last_word :
  (forall e : Editor,
      1 < List.length (word_boundaries (pre e)) ->
      pre (delete_word e) = slice_to (second_last (word_boundaries (pre e))) (pre e)
      /\ pre e = pre (delete_word e)
                 ++ slice_from (second_last (word_boundaries (pre e))) (pre e)
      /\ length (pre (delete_word e)) = second_last (word_boundaries (pre e))
      /\ post (delete_word e) = post e
      /\ out (delete_word e)
         = out e ++ frame (pre (delete_word e)) (post e)
                      (length (slice_from (second_last (word_boundaries (pre e)))
                                 (pre e))))
  /\ (forall e : Editor,
         List.length (word_boundaries (pre e)) < 2 -> delete_word e = e)
  /\ (forall (fuel : nat) (max : option Z) (columns : Z),
         exists e' : Editor,
           edit (2 + fuel) "ab cd" "" (Editor_init max columns)
             (String "023"%char (String "010"%char ""))
           = Done ("ab ", e', "")).
Proof.
  repeat apply conj.
  - intros e H. pose proof (second_last_bound (pre e) H) as B.
    unfold delete_word. apply Nat.ltb_lt in H. rewrite H.
    match goal with |- context [show ?k ?x] =>
      destruct (show_state k x) as (-> & -> & _); rewrite (show_out k x) end.
    cbn [pre post out set_pre].
    rewrite slice_to_from, length_slice_from, length_slice_to by exact B.
    auto.
  - intros e H. unfold delete_word.
    assert ((1 <? List.length (word_boundaries (pre e))) = false) as ->
        by (apply Nat.ltb_ge; lia).
    reflexivity.
  - intros fuel max columns.
    exists (enter (delete_word (edit_begin "ab cd" "" (Editor_init max columns)))).
    unfold edit. change (2 + fuel) with (S (S fuel)).
    rewrite edit_loop_step by (vm_compute; reflexivity).
    rewrite (edit_body_literal (S fuel) _ "023"%char _ delete_word)
      by (discriminate || reflexivity).
    cbn [bind].
    rewrite edit_loop_step by (vm_compute; reflexivity).
    rewrite (edit_body_literal fuel _ "010"%char _ enter)
      by (discriminate || reflexivity).
    cbn [bind].
    rewrite edit_loop_stopped by (vm_compute; reflexivity).
    cbn [bind]. vm_compute. reflexivity.
Qed.

Lemma delete_word_removes_last_word_witness :
  pre (delete_word (mkEditor 20 "ab cd" "ef" true "")) = "ab "
  /\ delete_word (mkEditor 20 " - " "ef" true "")
     = mkEditor 20 " - " "ef" true "".
Proof.
  destruct delete_word_removes_last_word as (Hdel & Hnop & _). split.
  - destruct (Hdel (mkEditor 20 "ab cd" "ef" true "")) as (H & _);
      [apply Nat.ltb_lt; reflexivity | exact H].
  - apply (Hnop (mkEditor 20 " - " "ef" true "")).
    apply Nat.ltb_lt. reflexivity.
Defined.

(** C9. [Editor(max=0)] does not get capacity 0: 0 is falsy, so [maxlen] is
    the number of columns minus one, and on a terminal of at least two
    columns inserting into the empty buffer appends the character. *)
Theorem zero_max_is_terminal_width (columns : Z) (c : string) :
  (2 <= columns)%Z ->
  maxlen (Editor_init (Some 0%Z) columns) = (columns - 1)%Z
  /\ pre (edit_begin "" "" (Editor_init (Some 0%Z) columns)) = ""
  /\ post (edit_begin "" "" (Editor_init (Some 0%Z) columns)) = ""
  /\ pre (handle_char c (edit_begin "" "" (Editor_init (Some 0%Z) columns))) = c
  /\ post (handle_char c (edit_begin "" "" (Editor_init (Some 0%Z) columns))) = "".
Proof.
  intros H. repeat apply conj; try reflexivity.
  - unfold handle_char.
    change (maxlen (edit_begin "" "" (Editor_init (Some 0%Z) columns)))
      with (columns - 1)%Z.
    change (Z.of_nat (length (pre (edit_begin "" "" (Editor_init (Some 0%Z) columns))
                              ++ post (edit_begin "" "" (Editor_init (Some 0%Z) columns)))))
      with 0%Z.
    assert ((0 <? columns - 1)%Z = true) as -> by (apply Z.ltb_lt; lia).
    rewrite orb_true_r.
    match goal with |- context [show 0 ?x] =>
      destruct (show_state 0 x) as (-> & _) end.
    reflexivity.
  - unfold handle_char.
    change (maxlen (edit_begin "" "" (Editor_init (Some 0%Z) columns)))
      with (columns - 1)%Z.
    change (Z.of_nat (length (pre (edit_begin "" "" (Editor_init (Some 0%Z) columns))
                              ++ post (edit_begin "" "" (Editor_init (Some 0%Z) columns)))))
      with 0%Z.
    assert ((0 <? columns - 1)%Z = true) as -> by (apply Z.ltb_lt; lia).
    rewrite orb_true_r.
    match goal with |- context [show 0 ?x] =>
      destruct (show_state 0 x) as (_ & -> & _) end.
    reflexivity.
Qed.

Lemma zero_max_is_terminal_width_witness :
  maxlen (Editor_init (Some 0%Z) 80) = 79%Z
  /\ pre (handle_char "x" (edit_begin "" "" (Editor_init (Some 0%Z) 80))) = "x".
Proof.
  destruct (zero_max_is_terminal_width 80 "x") as (H1 & _ & _ & H2 & _);
    [lia | split; [exact H1 | exact H2]].
Defined.

(** * Further properties *)

(** ** Terminal mode *)

Section TerminalMode.

Variables ECHO ICANON : Z.

Lemma raw_mode_lflag (raw : bool) (t : termios_attr) :
  lflag (raw_mode ECHO ICANON raw t)
  = if raw then Z.land (Z.land (lflag t) (Z.lnot ECHO)) (Z.lnot ICANON)
    else Z.lor (Z.lor (lflag t) ECHO) ICANON.
Proof. now destruct t, raw. Qed.

Lemma raw_mode_eq (raw : bool) (t : termios_attr) :
  raw_mode ECHO ICANON raw t
  = mkAttr (iflag t) (oflag t) (cflag t)
      (lflag (raw_mode ECHO ICANON raw t)) (ispeed t) (ospeed t) (cc t).
Proof. now destruct t, raw. Qed.

Lemma raw_mode_effect (raw : bool) (t : termios_attr) :
  iflag (raw_mode ECHO ICANON raw t) = iflag t
  /\ oflag (raw_mode ECHO ICANON raw t) = oflag t
  /\ cflag (raw_mode ECHO ICANON raw t) = cflag t
  /\ ispeed (raw_mode ECHO ICANON raw t) = ispeed t
  /\ ospeed (raw_mode ECHO ICANON raw t) = ospeed t
  /\ cc (raw_mode ECHO ICANON raw t) = cc t
  /\ forall n : nat,
       Z.testbit (lflag (raw_mode ECHO ICANON raw t)) (Z.of_nat n)
       = if Z.testbit ECHO (Z.of_nat n) || Z.testbit ICANON (Z.of_nat n)
         then negb raw
         else Z.testbit (lflag t) (Z.of_nat n).
Proof.
  repeat apply conj; try (now destruct t, raw).
  intros n. rewrite raw_mode_lflag. destruct raw.
  - rewrite !Z.land_spec, !Z.lnot_spec by lia.
    destruct (Z.testbit ECHO _), (Z.testbit ICANON _), (Z.testbit (lflag t) _);
      reflexivity.
  - rewrite !Z.lor_spec.
    destruct (Z.testbit ECHO _), (Z.testbit ICANON _), (Z.testbit (lflag t) _);
      reflexivity.
Qed.

(** X1. [raw_mode] changes nothing but the local flags, and of those exactly
    the bits of ECHO and ICANON: raw mode clears them, cooked mode sets
    them. *)
Theorem raw_mode_touches_two_flags (raw : bool) (t : termios_attr) :
  iflag (raw_mode ECHO ICANON raw t) = iflag t
  /\ oflag (raw_mode ECHO ICANON raw t) = oflag t
  /\ cflag (raw_mode ECHO ICANON raw t) = cflag t
  /\ ispeed (raw_mode ECHO ICANON raw t) = ispeed t
  /\ ospeed (raw_mode ECHO ICANON raw t) = ospeed t
  /\ cc (raw_mode ECHO ICANON raw t) = cc t
  /\ forall n : nat,
       Z.testbit (lflag (raw_mode ECHO ICANON raw t)) (Z.of_nat n)
       = if Z.testbit ECHO (Z.of_nat n) || Z.testbit ICANON (Z.of_nat n)
         then negb raw
         else Z.testbit (lflag t) (Z.of_nat n).
Proof. exact (raw_mode_effect raw t). Qed.

Lemma attr_eq_by_bits (t u : termios_attr) :
  iflag t = iflag u -> oflag t = oflag u -> cflag t = cflag u ->
  ispeed t = ispeed u -> ospeed t = ospeed u -> cc t = cc u ->
  (forall n : nat,
      Z.testbit (lflag t) (Z.of_nat n) = Z.testbit (lflag u) (Z.of_nat n)) ->
  t = u.
Proof.
  destruct t, u; simpl. intros -> -> -> -> -> -> H. f_equal.
  apply Z.bits_inj'. intros n Hn. rewrite <- (Z2Nat.id n Hn). apply H.
Qed.

Lemma raw_mode_twice (a b : bool) (t : termios_attr) :
  raw_mode ECHO ICANON b (raw_mode ECHO ICANON a t) = raw_mode ECHO ICANON b t.
Proof.
  pose proof (raw_mode_effect b (raw_mode ECHO ICANON a t))
    as (H1 & H2 & H3 & H4 & H5 & H6 & H7).
  pose proof (raw_mode_effect a t)
    as (A1 & A2 & A3 & A4 & A5 & A6 & A7).
  pose proof (raw_mode_effect b t)
    as (B1 & B2 & B3 & B4 & B5 & B6 & B7).
  apply attr_eq_by_bits; try congruence.
  intros n. rewrite H7, B7, A7.
  now destruct (Z.testbit ECHO _ || Z.testbit ICANON _).
Qed.

(** X2. The last call decides: calling [raw_mode] again, with the same or with
    the other value, gives what the last call alone gives. In particular
    the call is idempotent. *)
Theorem raw_mode_last_call_wins (a b : bool) (t : termios_attr) :
  raw_mode ECHO ICANON b (raw_mode ECHO ICANON a t) = raw_mode ECHO ICANON b t.
Proof. exact (raw_mode_twice a b t). Qed.

Lemma cooked_bits (t : termios_attr) (n : nat) :
  cooked ECHO ICANON t ->
  Z.testbit ECHO (Z.of_nat n) || Z.testbit ICANON (Z.of_nat n) = true ->
  Z.testbit (lflag t) (Z.of_nat n) = true.
Proof.
  unfold cooked. intros C H.
  apply (f_equal (fun z => Z.testbit z (Z.of_nat n))) in C.
  rewrite Z.land_spec, Z.lor_spec, H, andb_true_r in C. exact C.
Qed.

Lemma raw_mode_false_cooked (t : termios_attr) :
  cooked ECHO ICANON (raw_mode ECHO ICANON false t).
Proof.
  unfold cooked. apply Z.bits_inj'. intros n Hn.
  rewrite <- (Z2Nat.id n Hn).
  destruct (raw_mode_effect false t) as (_ & _ & _ & _ & _ & _ & H).
  rewrite Z.land_spec, Z.lor_spec, H.
  destruct (Z.testbit ECHO _ || Z.testbit ICANON _);
    [reflexivity | apply andb_false_r].
Qed.

Lemma raw_mode_back (t : termios_attr) :
  cooked ECHO ICANON t ->
  raw_mode ECHO ICANON false (raw_mode ECHO ICANON true t) = t.
Proof.
  intros C. rewrite raw_mode_twice.
  destruct (raw_mode_effect false t)
    as (B1 & B2 & B3 & B4 & B5 & B6 & B7).
  apply attr_eq_by_bits; trivial.
  intros n. rewrite B7.
  destruct (Z.testbit ECHO _ || Z.testbit ICANON _) eqn:E; [| reflexivity].
  symmetry. now apply cooked_bits.
Qed.

(** X3. Entering raw mode and going back to cooked mode restores the
    attributes of a terminal that was cooked. *)
Theorem raw_mode_round_trip (t : termios_attr) :
  cooked ECHO ICANON t ->
  raw_mode ECHO ICANON false (raw_mode ECHO ICANON true t) = t.
Proof. exact (raw_mode_back t). Qed.

(** X4. [setup_raw] switches the terminal to raw mode at once and, whatever
    calls of [raw_mode] follow, the exit of a process that had no other exit
    function leaves the terminal cooked, with every other attribute as it
    was before [setup_raw]; a terminal that was cooked is exactly as
    before. *)
Theorem setup_raw_restores_at_exit (t : termios_attr) (toggles : list bool) :
  tty (setup_raw ECHO ICANON (mkProcess t [])) = raw_mode ECHO ICANON true t
  /\ tty (run_exit (later_calls ECHO ICANON toggles
                      (setup_raw ECHO ICANON (mkProcess t []))))
     = raw_mode ECHO ICANON false t
  /\ cooked ECHO ICANON (tty (run_exit (later_calls ECHO ICANON toggles
                              (setup_raw ECHO ICANON (mkProcess t [])))))
  /\ (cooked ECHO ICANON t ->
      tty (run_exit (later_calls ECHO ICANON toggles
                       (setup_raw ECHO ICANON (mkProcess t [])))) = t).
Proof.
  unfold setup_raw, run_exit, later_calls, atexit_register.
  cbn [tty exit_handlers fold_left].
  assert (forall u, raw_mode ECHO ICANON false
                      (fold_left (fun u b => raw_mode ECHO ICANON b u) toggles u)
                    = raw_mode ECHO ICANON false u) as F.
  { induction toggles as [|b bs IH]; intros u; simpl; [reflexivity |].
    now rewrite IH, raw_mode_twice. }
  rewrite F, raw_mode_twice.
  repeat apply conj; trivial.
  - apply raw_mode_false_cooked.
  - intros C. rewrite <- (raw_mode_back t C) at 2.
    now rewrite raw_mode_twice.
Qed.

End TerminalMode.

Lemma raw_mode_round_trip_witness :
  raw_mode 8 2 false
    (raw_mode 8 2 true (mkAttr 17664 5 191 35387 15 15 [3%Z; 28%Z]))
  = mkAttr 17664 5 191 35387 15 15 [3%Z; 28%Z].
Proof. apply (raw_mode_round_trip 8 2). reflexivity. Defined.

Lemma setup_raw_restores_at_exit_witness :
  tty (run_exit (later_calls 8 2 [false; true]
                   (setup_raw 8 2
                      (mkProcess (mkAttr 17664 5 191 35387 15 15 [3%Z; 28%Z]) []))))
  = mkAttr 17664 5 191 35387 15 15 [3%Z; 28%Z].
Proof.
  apply (setup_raw_restores_at_exit 8 2
           (mkAttr 17664 5 191 35387 15 15 [3%Z; 28%Z]) [false; true]).
  reflexivity.
Defined.

(** ** The decoder on every input *)

Lemma SEQ_entries_decode :
  Forall (fun entry : string * Z =>
            forall (fuel : nat) (rest : stream),
              read (length (fst entry) + fuel) (ESC ++ "[" ++ fst entry ++ rest)
              = Done (mkKey None (Some (snd entry)), rest))
         SEQ.
Proof.
  unfold SEQ.
  repeat (apply Forall_cons; [intros fuel rest |]); [.. | apply Forall_nil].
  - refine (read_csi "" "" "A"%char rest _ eq_refl eq_refl eq_refl eq_refl _ _);
      simpl; lia.
  - refine (read_csi "" "" "B"%char rest _ eq_refl eq_refl eq_refl eq_refl _ _);
      simpl; lia.
  - refine (read_csi "" "" "C"%char rest _ eq_refl eq_refl eq_refl eq_refl _ _);
      simpl; lia.
  - refine (read_csi "" "" "D"%char rest _ eq_refl eq_refl eq_refl eq_refl _ _);
      simpl; lia.
  - refine (read_csi "" "" "H"%char rest _ eq_refl eq_refl eq_refl eq_refl _ _);
      simpl; lia.
  - refine (read_csi "" "" "F"%char rest _ eq_refl eq_refl eq_refl eq_refl _ _);
      simpl; lia.
  - refine (read_csi "2" "" "~"%char rest _ eq_refl eq_refl eq_refl eq_refl _ _);
      simpl; lia.
  - refine (read_csi "3" "" "~"%char rest _ eq_refl eq_refl eq_refl eq_refl _ _);
      simpl; lia.
  - refine (read_csi "5" "" "~"%char rest _ eq_refl eq_refl eq_refl eq_refl _ _);
      simpl; lia.
  - refine (read_csi "6" "" "~"%char rest _ eq_refl eq_refl eq_refl eq_refl _ _);
      simpl; lia.
  - refine (read_csi "1;5" "" "C"%char rest _ eq_refl eq_refl eq_refl eq_refl _ _);
      simpl; lia.
  - refine (read_csi "1;5" "" "D"%char rest _ eq_refl eq_refl eq_refl eq_refl _ _);
      simpl; lia.
Qed.

(** X5. Every entry of SEQ can be typed: ESC [ followed by its key decodes to
    its value, whatever follows in the input. The keys are pairwise
    distinct, and so are the values. *)
Theorem every_table_entry_decodes :
  Forall (fun entry : string * Z =>
            forall (fuel : nat) (rest : stream),
              read (length (fst entry) + fuel) (ESC ++ "[" ++ fst entry ++ rest)
              = Done (mkKey None (Some (snd entry)), rest))
         SEQ
  /\ NoDup (map fst SEQ)
  /\ NoDup (map snd SEQ).
Proof.
  repeat apply conj.
  - exact SEQ_entries_decode.
  - unfold SEQ. simpl map.
    repeat (apply NoDup_cons; [simpl; intuition discriminate |]). apply NoDup_nil.
  - unfold SEQ. simpl map.
    repeat (apply NoDup_cons; [simpl; intuition discriminate |]). apply NoDup_nil.
Qed.

(** The input splits at the first character that is outside a class. *)
Lemma class_run_split (cls : string) (fd : stream) :
  all_in cls fd = true
  \/ exists (run : string) (c : ascii) (rest : stream),
       fd = run ++ String c rest
       /\ all_in cls run = true /\ in_class cls (one c) = false.
Proof.
  induction fd as [|a fd IH].
  - now left.
  - destruct (in_class cls (one a)) eqn:A.
    + destruct IH as [IH | (run & c & rest & -> & Hrun & Hc)].
      * left. simpl. now rewrite A.
      * right. exists (String a run), c, rest. simpl. rewrite A. auto.
    + right. exists "", a, fd. auto.
Qed.

Lemma read_out_of_fuel_iff (fd : stream) (fuel : nat) :
  length fd <= fuel ->
  (read fuel fd = OutOfFuel <-> truncated_csi fd).
Proof.
  intros Hfuel. split.
  - intros Hout.
    destruct fd as [|k fd]; [discriminate |].
    destruct (string_dec (one k) ESC) as [E | E];
      [| now rewrite read_literal in Hout].
    injection E as ->.
    destruct fd as [|b fd]; [discriminate |].
    destruct (string_dec (one b) "[") as [B | B].
    2:{ change (String "027" (String b fd)) with (ESC ++ String b fd) in Hout.
        rewrite read_esc in Hout. unfold parse_esc in Hout.
        now rewrite esc2str_not_csi in Hout. }
    injection B as ->.
    simpl in Hfuel.
    destruct (class_run_split CS_PARAMETER fd)
      as [Hp | (params & c & rest & -> & Hp & Hc)].
    { exists fd, "". rewrite append_nil_r. auto. }
    destruct (class_run_split CS_INTERMEDIATE (String c rest))
      as [Hi | (inters & c2 & rest2 & Hsplit & Hi & Hc2)].
    { exists params, (String c rest). auto. }
    exfalso.
    assert (in_class CS_PARAMETER (first_char (inters ++ one c2)) = false) as Hfirst.
    { destruct inters as [|i inters]; simpl in Hsplit; injection Hsplit as <- _;
        exact Hc. }
    rewrite Hsplit in Hout, Hfuel.
    change (String "027" (String "[" (params ++ inters ++ String c2 rest2)))
      with (ESC ++ "[" ++ params ++ inters ++ String c2 rest2) in Hout.
    rewrite !length_append in Hfuel.
    rewrite read_csi in Hout by (trivial; lia).
    destruct (in_class CS_FINAL (one c2)); discriminate.
  - intros (params & inters & -> & Hp & Hi). now apply read_truncated_csi.
Qed.

(** X6. [read] ends, with a key or with an error, on every input except those
    that end inside a control sequence, and on those it never ends. The fuel
    is any bound that is at least the length of the input. *)
Theorem read_ends_unless_truncated (fd : stream) (fuel : nat) :
  length fd <= fuel ->
  (read fuel fd = OutOfFuel <-> truncated_csi fd).
Proof. exact (read_out_of_fuel_iff fd fuel). Qed.

Lemma read_ends_unless_truncated_witness :
  read 4 (ESC ++ "[1;") = OutOfFuel <-> truncated_csi (ESC ++ "[1;").
Proof. apply (read_ends_unless_truncated (ESC ++ "[1;") 4). simpl. lia. Defined.

Lemma fd_read1_split (fd : stream) :
  fst (fd_read1 fd) ++ snd (fd_read1 fd) = fd
  /\ length (fst (fd_read1 fd)) <= 1.
Proof. destruct fd; simpl; auto. Qed.

(** A loop that stops has moved text from the input to [buf] and nothing
    else, and stops on a character outside the class. *)
Lemma consume_invariant (cls : string) (fuel : nat) :
  forall (buf next : string) (fd : stream) (buf' next' : string) (fd' : stream),
    consume cls fuel (buf, next, fd) = Some (buf', next', fd') ->
    length next <= 1 ->
    buf' ++ next' ++ fd' = buf ++ next ++ fd
    /\ in_class cls next' = false
    /\ length next' = 1.
Proof.
  assert (forall next, in_class cls next = false -> length next <= 1 ->
                       length next = 1) as One.
  { intros [|c n] H L; [now rewrite in_class_empty in H | simpl in *; lia]. }
  induction fuel as [|fuel IH]; intros buf next fd buf' next' fd' H L.
  - simpl in H. destruct (in_class cls next) eqn:C; [discriminate |].
    injection H as <- <- <-. auto.
  - change (consume cls (S fuel) (buf, next, fd)) with
      (if in_class cls next then consume cls fuel (consume_body (buf, next, fd))
       else Some (buf, next, fd)) in H.
    destruct (in_class cls next) eqn:C.
    + rewrite consume_body_start in H. unfold start_loop in H.
      destruct (fd_read1_split fd) as [S1 L1].
      apply IH in H as (H & Hc & Hl); [| exact L1].
      rewrite H, append_assoc, S1. auto.
    + injection H as <- <- <-. auto.
Qed.

Lemma esc2str_consumed (fuel : nat) (fd fd' : stream)
        (r : option string) :
  esc2str fuel fd = Done (r, fd') ->
  match r with
  | Some body =>
      fd = "[" ++ body ++ fd'
      /\ exists (head : string) (f : ascii),
           body = head ++ one f /\ in_class CS_FINAL (one f) = true
  | None =>
      fd = fst (fd_read1 fd) ++ fd' /\ fst (fd_read1 fd) <> "["
  end.
Proof.
  unfold esc2str.
  destruct (fd_read1_split fd) as [S0 _].
  destruct (fd_read1 fd) as [next fd1] eqn:R0. simpl fst in *. simpl snd in *.
  destruct (next =? "[")%string eqn:E; simpl negb; cbv iota.
  2:{ intros H. injection H as <- <-. apply eqb_neq in E. auto. }
  apply eqb_eq in E. subst next.
  destruct (fd_read1_split fd1) as [S1 L1].
  destruct (fd_read1 fd1) as [next1 fd2] eqn:R1. simpl fst in *. simpl snd in *.
  destruct (consume CS_PARAMETER fuel ("", next1, fd2)) as [[[bufA nextA] fdA]|]
    eqn:CA; [| discriminate].
  cbn [lift_loop bind].
  destruct (consume CS_INTERMEDIATE fuel (bufA, nextA, fdA))
    as [[[bufB nextB] fdB]|] eqn:CB; [| discriminate].
  cbn [lift_loop bind].
  apply consume_invariant in CA as (IA & _ & LA); [| exact L1].
  apply consume_invariant in CB as (IB & _ & LB); [| lia].
  destruct (in_class CS_FINAL nextB) eqn:F; [| discriminate].
  intros H. injection H as <- <-. split.
  - rewrite append_assoc, IB, IA. simpl. now rewrite S1.
  - destruct nextB as [|f [|]]; try discriminate. now exists bufB, f.
Qed.

(** X7. What [esc2str] returns is what it has read: the body together with the
    unread input is the input after the introducer, and the body ends with a
    final byte; when there is no introducer, one character (none at the end
    of the input) has been read. *)
Theorem esc2str_returns_consumed (fuel : nat) (fd fd' : stream)
        (r : option string) :
  esc2str fuel fd = Done (r, fd') ->
  match r with
  | Some body =>
      fd = "[" ++ body ++ fd'
      /\ exists (head : string) (f : ascii),
           body = head ++ one f /\ in_class CS_FINAL (one f) = true
  | None =>
      fd = fst (fd_read1 fd) ++ fd' /\ fst (fd_read1 fd) <> "["
  end.
Proof. exact (esc2str_consumed fuel fd fd' r). Qed.

Lemma esc2str_returns_consumed_witness :
  "[12;3$qrest" = "[" ++ "12;3$q" ++ "rest"
  /\ exists (head : string) (f : ascii),
       "12;3$q" = head ++ one f /\ in_class CS_FINAL (one f) = true.
Proof.
  apply (esc2str_returns_consumed 4 "[12;3$qrest" "rest" (Some "12;3$q")).
  reflexivity.
Defined.

(** [read] returns the input it has not used; it uses at least one
    character unless the input is at its end. *)
Lemma read_consumes (fuel : nat) (fd fd' : stream) (k : Key) :
  read fuel fd = Done (k, fd') ->
  exists used : string, fd = used ++ fd' /\ (fd <> "" -> used <> "").
Proof.
  unfold read, Key_init.
  destruct (fd_read1_split fd) as [S0 _].
  destruct (fd_read1 fd) as [key fd1] eqn:R0. simpl fst in *. simpl snd in *.
  destruct (key =? ESC)%string eqn:E; simpl negb; cbv iota.
  - apply eqb_eq in E. subst key. unfold parse_esc.
    destruct (esc2str fuel fd1) as [[seq fd2]| |] eqn:P; try discriminate.
    cbn [bind]. intros H. injection H as <- <-.
    apply esc2str_consumed in P.
    destruct seq as [body|].
    + destruct P as [-> _]. exists (ESC ++ "[" ++ body).
      rewrite <- S0. split; [now rewrite !append_assoc | discriminate].
    + destruct P as [P _]. exists (ESC ++ fst (fd_read1 fd1)).
      rewrite <- S0. split; [| discriminate].
      rewrite append_assoc. now rewrite <- P.
  - intros H. injection H as <- <-. exists key. split; [now rewrite S0 |].
    intros Hne ->. destruct fd; [now apply Hne | discriminate].
Qed.

Lemma read_shortens (fuel : nat) (fd fd' : stream) (k : Key) :
  read fuel fd = Done (k, fd') -> fd <> "" -> length fd' < length fd.
Proof.
  intros H Hne. apply read_consumes in H as (used & -> & U).
  rewrite length_append. specialize (U Hne).
  destruct used; [now elim U | simpl; lia].
Qed.

(** ** Editing *)

Lemma slice_to_app (p x : string) : slice_to (length p) (p ++ x) = p.
Proof. induction p as [|c p IH]; simpl; [now destruct x | now rewrite IH]. Qed.

Lemma slice_from_app (p x : string) : slice_from (length p) (p ++ x) = x.
Proof. induction p as [|c p IH]; simpl; [now destruct x | exact IH]. Qed.

Lemma last_char_app (p x : string) :
  length x = 1 -> last_char (p ++ x) = x /\ drop_last (p ++ x) = p.
Proof.
  intros H. unfold last_char, drop_last. rewrite length_append, H.
  replace (length p + 1 - 1) with (length p) by lia.
  now rewrite slice_from_app, slice_to_app.
Qed.

Lemma last_char_length (s : string) :
  s <> "" -> length (last_char s) = 1 /\ drop_last s ++ last_char s = s.
Proof.
  intros H. unfold last_char, drop_last. split; [| apply slice_to_from].
  assert (0 < length s) by (destruct s; [now elim H | simpl; lia]).
  rewrite length_slice_from, length_slice_to; lia.
Qed.

Lemma first_char_length (s : string) :
  s <> "" -> length (first_char s) = 1 /\ first_char s ++ slice_from 1 s = s.
Proof. intros H. destruct s as [|c s]; [now elim H | now destruct s]. Qed.

Lemma slice_one_app (x s : string) :
  length x = 1 -> first_char (x ++ s) = x /\ slice_from 1 (x ++ s) = s.
Proof.
  intros H. destruct x as [|c [|]]; try discriminate. simpl. now destruct s.
Qed.

Lemma eqb_empty_false (s : string) : s <> "" -> (s =? "")%string = false.
Proof. intros H. now apply eqb_neq. Qed.

Lemma app_not_empty (p x : string) : length x = 1 -> p ++ x <> "".
Proof.
  intros H E. apply (f_equal length) in E. rewrite length_append in E.
  simpl in E. lia.
Qed.

(** X8. No cursor movement, and none of the three handlers that are left to do,
    alters the line: the text before the cursor followed by the text after it
    is the same afterwards, and so are [maxlen] and [running]. *)
Theorem moves_preserve_text :
  Forall (fun op : Editor -> Editor =>
            forall e : Editor,
              pre (op e) ++ post (op e) = pre e ++ post e
              /\ maxlen (op e) = maxlen e
              /\ running (op e) = running e)
         [left; right; home; end_; word_left; word_right; up; down; tab].
Proof.
  repeat (apply Forall_cons; [intros e |]); [.. | apply Forall_nil].
  - unfold left. destruct (pre e =? "")%string eqn:E; [auto |].
    apply eqb_neq in E. cbn [pre post maxlen running set_pre set_post].
    destruct (last_char_length (pre e) E) as [_ H].
    now rewrite <- append_assoc, H.
  - unfold right. destruct (post e =? "")%string eqn:E; [auto |].
    apply eqb_neq in E. cbn [pre post maxlen running set_pre set_post].
    destruct (first_char_length (post e) E) as [_ H].
    now rewrite append_assoc, H.
  - unfold home. cbn [pre post maxlen running set_pre set_post].
    repeat split.
  - unfold end_. cbn [pre post maxlen running set_pre set_post].
    now rewrite append_nil_r.
  - unfold word_left. destruct (1 <? _); [| auto].
    match goal with |- context [show 0 ?x] =>
      destruct (show_state 0 x) as (-> & -> & -> & ->) end.
    cbn [pre post maxlen running set_pre set_post].
    now rewrite <- append_assoc, slice_to_from.
  - unfold word_right. destruct (1 <? _); [| auto].
    match goal with |- context [show 0 ?x] =>
      destruct (show_state 0 x) as (-> & -> & -> & ->) end.
    cbn [pre post maxlen running set_pre set_post].
    now rewrite append_assoc, slice_to_from.
  - now unfold up.
  - now unfold down.
  - now unfold tab.
Qed.

(** X9. [left] and [right] undo each other: after a step to the left that had a
    character to step over, a step to the right gives back the very same
    state, and the other way round. *)
Theorem left_right_inverse (e : Editor) :
  (pre e <> "" -> right (left e) = e)
  /\ (post e <> "" -> left (right e) = e).
Proof.
  destruct e as [m p q r o]. cbn [pre post]. split; intros H.
  - unfold left. cbn [pre post]. rewrite (eqb_empty_false p H).
    cbn [pre post maxlen running out set_pre set_post].
    destruct (last_char_length p H) as [L S].
    unfold right. cbn [pre post maxlen running out set_pre set_post].
    rewrite (eqb_empty_false (last_char p ++ q))
      by (intros E; apply (f_equal length) in E;
          rewrite length_append in E; simpl in E; lia).
    cbn [pre post maxlen running out set_pre set_post].
    destruct (slice_one_app (last_char p) q L) as [-> ->]. now rewrite S.
  - unfold right. cbn [pre post]. rewrite (eqb_empty_false q H).
    cbn [pre post maxlen running out set_pre set_post].
    destruct (first_char_length q H) as [L S].
    unfold left. cbn [pre post maxlen running out set_pre set_post].
    rewrite (eqb_empty_false (p ++ first_char q)) by now apply app_not_empty.
    cbn [pre post maxlen running out set_pre set_post].
    destruct (last_char_app p (first_char q) L) as [-> ->]. now rewrite S.
Qed.

Lemma left_right_inverse_witness :
  right (left (mkEditor 9 "ab" "cd" true "")) = mkEditor 9 "ab" "cd" true ""
  /\ left (right (mkEditor 9 "ab" "cd" true "")) = mkEditor 9 "ab" "cd" true "".
Proof.
  destruct (left_right_inverse (mkEditor 9 "ab" "cd" true "")) as [H1 H2].
  split; [apply H1 | apply H2]; discriminate.
Defined.

(** X10. Backspace is a step to the left followed by a forward delete, and it
    takes back the character that [handle_char] has just inserted. *)
Theorem backspace_composes (e : Editor) (c : string) :
  (pre e <> "" ->
   pre (delete (left e)) = pre (backspace e)
   /\ post (delete (left e)) = post (backspace e))
  /\ (length c = 1 ->
      pre (backspace (handle_char c e)) = pre e
      /\ post (backspace (handle_char c e)) = post e
      \/ handle_char c e = e).
Proof.
  split.
  - intros H. destruct (last_char_length (pre e) H) as [L S].
    unfold delete, backspace.
    repeat match goal with |- context [show 1 ?x] =>
      destruct (show_state 1 x) as (-> & -> & _) end.
    unfold left. rewrite (eqb_empty_false (pre e) H).
    cbn [pre post set_pre set_post].
    rewrite length_append, L. change (0 <? 1 + length (post e)) with true.
    assert ((0 <? length (pre e)) = true) as ->
        by (apply Nat.ltb_lt; destruct (pre e); [now elim H | simpl; lia]).
    cbn [pre post set_pre set_post].
    destruct (slice_one_app (last_char (pre e)) (post e) L) as [_ ->]. auto.
  - intros H. unfold handle_char.
    destruct (orb (maxlen e <? 0)%Z
                  (Z.of_nat (length (pre e ++ post e)) <? maxlen e)%Z);
      [left | now right].
    set (e1 := show 0 (set_pre (pre e ++ c) e)).
    destruct (show_state 0 (set_pre (pre e ++ c) e)) as (P1 & Q1 & _).
    fold e1 in P1, Q1. cbn [pre post set_pre] in P1, Q1.
    unfold backspace.
    match goal with |- context [show 1 ?x] =>
      destruct (show_state 1 x) as (-> & -> & _) end.
    assert ((0 <? length (pre e1)) = true) as ->.
    { apply Nat.ltb_lt. rewrite P1, length_append, H. lia. }
    cbn [pre post set_pre]. rewrite P1, Q1.
    destruct (last_char_app (pre e) c H) as [_ ->]. auto.
Qed.

Lemma backspace_composes_witness :
  (pre (delete (left (mkEditor 9 "ab" "cd" true ""))) = "a"
   /\ post (delete (left (mkEditor 9 "ab" "cd" true ""))) = "cd")
  /\ (pre (backspace (handle_char "x" (mkEditor 9 "ab" "cd" true ""))) = "ab"
      /\ post (backspace (handle_char "x" (mkEditor 9 "ab" "cd" true ""))) = "cd"
      \/ handle_char "x" (mkEditor 9 "ab" "cd" true "")
         = mkEditor 9 "ab" "cd" true "").
Proof.
  destruct (backspace_composes (mkEditor 9 "ab" "cd" true "") "x") as [H1 H2].
  split; [apply H1; discriminate | apply H2; reflexivity].
Defined.

(** ** Words *)

Lemma boundaries_skip_nonword (t s : string) :
  has_word t = false ->
  forall i : nat,
    boundaries_from i false (t ++ s) = boundaries_from (i + length t) false s.
Proof.
  induction t as [|c t IH]; intros H i; simpl.
  - now rewrite Nat.add_0_r.
  - simpl in H. apply orb_false_elim in H as [Hc Ht].
    rewrite Hc. simpl. rewrite IH by exact Ht. f_equal. lia.
Qed.

Lemma boundaries_inside_word (w s : string) :
  all_word w = true ->
  forall i : nat,
    boundaries_from i true (w ++ s) = boundaries_from (i + length w) true s.
Proof.
  induction w as [|c w IH]; intros H i; simpl.
  - now rewrite Nat.add_0_r.
  - simpl in H. apply andb_prop in H as [Hc Hw].
    rewrite Hc. simpl. rewrite IH by exact Hw. f_equal. lia.
Qed.

Lemma boundaries_word_end (s : string) (i : nat) :
  starts_with_word s = false ->
  exists more : list nat, boundaries_from i true s = i :: more.
Proof.
  destruct s as [|c s]; simpl; intros H; [now exists [] |].
  rewrite H. simpl. eauto.
Qed.

Lemma boundaries_no_word (s : string) (i : nat) :
  has_word s = false -> boundaries_from i false s = [].
Proof.
  intros H. rewrite <- (append_nil_r s).
  now rewrite boundaries_skip_nonword.
Qed.

Lemma boundaries_prefix (a s : string) :
  forall (i : nat) (prev : bool),
    last_is_word prev a = false ->
    exists before : list nat,
      boundaries_from i prev (a ++ s)
      = (before ++ boundaries_from (i + length a) false s)%list.
Proof.
  induction a as [|c a IH]; intros i prev H; simpl in *.
  - subst prev. exists []. now rewrite Nat.add_0_r.
  - destruct (IH (S i) (is_word c) H) as [before ->].
    exists ((if xorb prev (is_word c) then [i] else []) ++ before)%list.
    rewrite <- app_assoc. do 3 f_equal. lia.
Qed.

(** A word [w] followed by text [t] without word characters has two
    boundaries: its start and its end. *)
Lemma boundaries_last_word (w t : string) (i : nat) :
  w <> "" -> all_word w = true -> has_word t = false ->
  boundaries_from i false (w ++ t) = [i; i + length w].
Proof.
  intros Hne Hw Ht. destruct w as [|c w]; [now elim Hne |].
  simpl in Hw. apply andb_prop in Hw as [Hc Hw]. simpl.
  rewrite Hc. simpl. rewrite boundaries_inside_word by exact Hw.
  destruct t as [|d t]; simpl.
  - f_equal. f_equal. lia.
  - simpl in Ht. apply orb_false_elim in Ht as [Hd Ht]. rewrite Hd. simpl.
    rewrite boundaries_no_word by exact Ht. f_equal. f_equal. lia.
Qed.

Lemma second_last_app (before : list nat) (x y : nat) :
  second_last (before ++ [x; y])%list = x
  /\ 1 < List.length (before ++ [x; y])%list.
Proof.
  unfold second_last. rewrite length_app. simpl List.length.
  replace (List.length before + 2 - 2) with (List.length before) by lia.
  split; [| lia]. rewrite app_nth2 by lia. now rewrite Nat.sub_diag.
Qed.

Lemma word_left_at_word_start (e : Editor) (a w t : string) :
  pre e = a ++ w ++ t ->
  last_is_word false a = false ->
  w <> "" -> all_word w = true -> has_word t = false ->
  pre (word_left e) = a
  /\ post (word_left e) = w ++ t ++ post e
  /\ pre (delete_word e) = a
  /\ post (delete_word e) = post e
  /\ out (delete_word e) = out e ++ frame a (post e) (length w + length t).
Proof.
  intros Hpre Ha Hne Hw Ht.
  destruct (boundaries_prefix a (w ++ t) 0 false Ha) as [before B].
  rewrite (boundaries_last_word w t _ Hne Hw Ht) in B. simpl in B.
  destruct (second_last_app before (length a) (length a + length w)) as [S2 L2].
  unfold word_left, delete_word, word_boundaries.
  rewrite Hpre, B. apply Nat.ltb_lt in L2. rewrite L2, S2.
  repeat match goal with |- context [show ?k ?x] =>
    destruct (show_state k x) as (-> & -> & _); rewrite ?(show_out k x) end.
  cbn [pre post out set_pre set_post]. rewrite Hpre.
  rewrite slice_to_app, slice_from_app, !length_append.
  replace (length a + (length w + length t) - length a)
    with (length w + length t) by lia.
  now rewrite append_assoc.
Qed.

(** X12. Where ctrl-left and ctrl-W go. When the text before the cursor is [a],
    then a word [w], then text [t] without word characters, [a] being empty
    or ending with a non-word character, [word_left] puts the cursor at the
    start of [w] and [delete_word] removes [w] and [t], erasing as many
    cells. *)
Theorem word_left_goes_to_word_start (e : Editor) (a w t : string) :
  pre e = a ++ w ++ t ->
  last_is_word false a = false ->
  w <> "" -> all_word w = true -> has_word t = false ->
  pre (word_left e) = a
  /\ post (word_left e) = w ++ t ++ post e
  /\ pre (delete_word e) = a
  /\ post (delete_word e) = post e
  /\ out (delete_word e) = out e ++ frame a (post e) (length w + length t).
Proof. exact (word_left_at_word_start e a w t). Qed.

Lemma word_left_goes_to_word_start_witness :
  pre (word_left (mkEditor 40 "one, two.. " "x" true "")) = "one, "
  /\ post (word_left (mkEditor 40 "one, two.. " "x" true "")) = "two" ++ ".. " ++ "x"
  /\ pre (delete_word (mkEditor 40 "one, two.. " "x" true "")) = "one, "
  /\ post (delete_word (mkEditor 40 "one, two.. " "x" true "")) = "x"
  /\ out (delete_word (mkEditor 40 "one, two.. " "x" true ""))
     = "" ++ frame "one, " "x" (length "two" + length ".. ").
Proof.
  apply (word_left_goes_to_word_start (mkEditor 40 "one, two.. " "x" true "")
           "one, " "two" ".. "); try reflexivity. discriminate.
Defined.

Lemma word_right_at_word_end (e : Editor) (t w b : string) :
  post e = t ++ w ++ b ->
  has_word t = false ->
  w <> "" -> all_word w = true -> starts_with_word b = false ->
  pre (word_right e) = pre e ++ t ++ w
  /\ post (word_right e) = b.
Proof.
  intros Hpost Ht Hne Hw Hb.
  assert (exists more, word_boundaries (post e)
                       = length t :: (length t + length w) :: more) as [more B].
  { unfold word_boundaries. rewrite Hpost, boundaries_skip_nonword by exact Ht.
    destruct w as [|c w]; [now elim Hne |].
    simpl in Hw. apply andb_prop in Hw as [Hc Hw]. simpl.
    rewrite Hc. simpl. rewrite boundaries_inside_word by exact Hw.
    destruct (boundaries_word_end b (S (length t) + length w) Hb) as [more ->].
    exists more. f_equal. f_equal. lia. }
  unfold word_right. rewrite B.
  change (1 <? List.length (length t :: length t + length w :: more)) with true.
  change (second (length t :: length t + length w :: more))
    with (length t + length w).
  cbv iota.
  match goal with |- context [show 0 ?x] =>
    destruct (show_state 0 x) as (-> & -> & _) end.
  cbn [pre post set_pre set_post]. rewrite Hpost.
  rewrite <- (length_append t w), <- (append_assoc t w b).
  now rewrite slice_to_app, slice_from_app.
Qed.

(** X13. Where ctrl-right goes. When the text after the cursor is text [t] without
    word characters, then a word [w], then [b], which is empty or starts with
    a non-word character, [word_right] puts the cursor at the end of [w]. *)
Theorem word_right_goes_to_word_end (e : Editor) (t w b : string) :
  post e = t ++ w ++ b ->
  has_word t = false ->
  w <> "" -> all_word w = true -> starts_with_word b = false ->
  pre (word_right e) = pre e ++ t ++ w
  /\ post (word_right e) = b.
Proof. exact (word_right_at_word_end e t w b). Qed.

Lemma word_right_goes_to_word_end_witness :
  pre (word_right (mkEditor 40 "x" ", two.. three" true "")) = "x" ++ ", " ++ "two"
  /\ post (word_right (mkEditor 40 "x" ", two.. three" true "")) = ".. three".
Proof.
  apply (word_right_goes_to_word_end (mkEditor 40 "x" ", two.. three" true "")
           ", " "two" ".. three"); try reflexivity. discriminate.
Defined.

Lemma word_span (r : string) :
  exists w b : string,
    r = w ++ b /\ all_word w = true /\ starts_with_word b = false.
Proof.
  induction r as [|c r (w & b & -> & Hw & Hb)].
  - now exists "", "".
  - destruct (is_word c) eqn:C.
    + exists (String c w), b. simpl. rewrite C. auto.
    + exists "", (String c (w ++ b)). simpl. auto.
Qed.

Lemma first_word_split (s : string) :
  has_word s = true ->
  exists t w b : string,
    s = t ++ w ++ b /\ has_word t = false /\ w <> ""
    /\ all_word w = true /\ starts_with_word b = false.
Proof.
  induction s as [|c s IH]; simpl; [discriminate |].
  destruct (is_word c) eqn:C; simpl.
  - intros _. destruct (word_span s) as (w & b & -> & Hw & Hb).
    exists "", (String c w), b. simpl. rewrite C.
    repeat split; auto. discriminate.
  - intros H. destruct (IH H) as (t & w & b & -> & Ht & Hne & Hw & Hb).
    exists (String c t), w, b. simpl. rewrite C. auto.
Qed.

Lemma last_word_split (s : string) :
  has_word s = true ->
  exists a w t : string,
    s = a ++ w ++ t /\ last_is_word false a = false /\ w <> ""
    /\ all_word w = true /\ has_word t = false.
Proof.
  induction s as [|c s IH]; simpl; [discriminate |].
  destruct (has_word s) eqn:S.
  - intros _. destruct (IH eq_refl) as (a & w & t & -> & Ha & Hne & Hw & Ht).
    destruct a as [|d a].
    + destruct (is_word c) eqn:C.
      * exists "", (String c w), t. simpl. rewrite C.
        repeat split; auto. discriminate.
      * exists (String c ""), w, t. simpl. auto.
    + exists (String c (String d a)), w, t. simpl in *. auto.
  - rewrite orb_false_r. intros C.
    exists "", (String c ""), s. simpl. rewrite C.
    repeat split; auto. discriminate.
Qed.

Lemma nonempty_length (w : string) : w <> "" -> 0 < length w.
Proof. destruct w; [now intros H; elim H | simpl; lia]. Qed.

(** X14. The word-wise handlers act exactly when there is a word to act on. With
    no word character before the cursor [word_left] and [delete_word] change
    nothing, not even the output; with one, both make the text before the
    cursor shorter. [word_right] is the same for the text after the cursor. *)
Theorem word_handlers_act_on_words (e : Editor) :
  (has_word (pre e) = false -> word_left e = e /\ delete_word e = e)
  /\ (has_word (pre e) = true ->
      length (pre (word_left e)) < length (pre e)
      /\ length (pre (delete_word e)) < length (pre e))
  /\ (has_word (post e) = false -> word_right e = e)
  /\ (has_word (post e) = true ->
      length (post (word_right e)) < length (post e)).
Proof.
  repeat apply conj.
  - intros H. unfold word_left, delete_word, word_boundaries.
    now rewrite boundaries_no_word.
  - intros H.
    destruct (last_word_split (pre e) H) as (a & w & t & E & Ha & Hne & Hw & Ht).
    destruct (word_left_at_word_start e a w t E Ha Hne Hw Ht)
      as (-> & _ & -> & _).
    rewrite E, !length_append. pose proof (nonempty_length w Hne). lia.
  - intros H. unfold word_right, word_boundaries.
    now rewrite boundaries_no_word.
  - intros H.
    destruct (first_word_split (post e) H) as (t & w & b & E & Ht & Hne & Hw & Hb).
    destruct (word_right_at_word_end e t w b E Ht Hne Hw Hb) as (_ & ->).
    rewrite E, !length_append. pose proof (nonempty_length w Hne). lia.
Qed.

Lemma word_handlers_act_on_words_witness :
  (word_left (mkEditor 40 " .. " "abcd" true "") = mkEditor 40 " .. " "abcd" true ""
   /\ delete_word (mkEditor 40 " .. " "abcd" true "")
      = mkEditor 40 " .. " "abcd" true "")
  /\ length (post (word_right (mkEditor 40 " .. " "abcd" true "")))
     < length (post (mkEditor 40 " .. " "abcd" true "")).
Proof.
  destruct (word_handlers_act_on_words (mkEditor 40 " .. " "abcd" true ""))
    as (H1 & _ & _ & H4).
  split; [apply H1 | apply H4]; reflexivity.
Defined.

Lemma length_slice_to_le (n : nat) (s : string) : length (slice_to n s) <= n.
Proof.
  revert s; induction n as [|n IH]; intros [|c s]; simpl; try lia.
  specialize (IH s). lia.
Qed.

(** X15. Every handler that deletes repaints the whole of the old line: the frame
    it writes, erase cells included, is at least as long as the line was, so
    no character of the old line stays on the screen. [delete_word] either
    does so or, having no word to delete, does nothing at all. *)
Theorem deletions_repaint_old_line (e : Editor) :
  repaints e (delete e)
  /\ repaints e (backspace e)
  /\ repaints e (kill_post e)
  /\ (delete_word e = e \/ repaints e (delete_word e)).
Proof.
  unfold repaints. repeat apply conj.
  - exists 1. unfold delete.
    match goal with |- context [show 1 ?x] =>
      destruct (show_total 1 x) as [-> _];
      destruct (show_state 1 x) as (-> & -> & _); rewrite (show_out 1 x) end.
    destruct (0 <? length (post e)); [| split; [reflexivity | lia]].
    unfold total. cbn [pre post out set_post]. split; [reflexivity |].
    pose proof (length_slices 1 (post e)).
    pose proof (length_slice_to_le 1 (post e)). lia.
  - exists 1. unfold backspace.
    match goal with |- context [show 1 ?x] =>
      destruct (show_total 1 x) as [-> _];
      destruct (show_state 1 x) as (-> & -> & _); rewrite (show_out 1 x) end.
    destruct (0 <? length (pre e)); [| split; [reflexivity | lia]].
    unfold total, drop_last. cbn [pre post out set_pre]. split; [reflexivity |].
    assert (length (pre e) - 1 <= length (pre e)) as L by lia.
    rewrite (length_slice_to _ _ L). lia.
  - exists (length (post e)). unfold kill_post.
    match goal with |- context [show ?k ?x] =>
      destruct (show_total k x) as [-> _];
      destruct (show_state k x) as (-> & -> & _); rewrite (show_out k x) end.
    unfold total. cbn [pre post out set_post]. split; [reflexivity | simpl; lia].
  - unfold delete_word. destruct (1 <? _); [right | now left].
    exists (length (pre e) - second_last (word_boundaries (pre e))).
    match goal with |- context [show ?k ?x] =>
      destruct (show_total k x) as [-> _];
      destruct (show_state k x) as (-> & -> & _); rewrite (show_out k x) end.
    unfold total. cbn [pre post out set_pre]. split; [reflexivity |].
    pose proof (length_slice_to_le (second_last (word_boundaries (pre e))) (pre e)).
    destruct (Nat.le_ge_cases (second_last (word_boundaries (pre e)))
                (length (pre e))) as [L | L].
    + rewrite (length_slice_to _ _ L). lia.
    + pose proof (length_slices (second_last (word_boundaries (pre e))) (pre e)).
      assert (slice_to (second_last (word_boundaries (pre e))) (pre e) = pre e)
        as ->; [| lia].
      clear -L. revert L. generalize (second_last (word_boundaries (pre e))).
      induction (pre e) as [|c s IH]; intros [|n] L; simpl in *;
        try reflexivity; try lia.
      f_equal. apply IH. lia.
Qed.

(** ** The session *)

Lemma dict_get_unbound {V : Type} (d : list (string * V)) (k : string) :
  existsb (fun kv => (fst kv =? k)%string) d = false -> dict_get d k = None.
Proof.
  induction d as [|[k' v] d IH]; simpl; [reflexivity |].
  destruct (k' =? k)%string; simpl; [discriminate | exact IH].
Qed.

Lemma printable_unbound (c : ascii) :
  printable c = true ->
  dict_get key_cmds (one c) = None
  /\ one c <> ESC
  /\ ord (one c) = Some (nat_of_ascii c)
  /\ (32 <=? nat_of_ascii c) = true.
Proof.
  intros H.
  assert (implb (printable c)
            (negb (existsb (fun kv => (fst kv =? one c)%string) key_cmds)
             && negb (one c =? ESC)%string) = true) as F by each_ascii c.
  rewrite H in F. cbn [implb] in F. apply andb_prop in F as [F1 F2].
  apply negb_true_iff in F1, F2. apply eqb_neq in F2.
  unfold printable in H. apply andb_prop in H as [H _].
  auto using dict_get_unbound.
Qed.

(** A printable character is handed to [handle_char]. *)
Lemma edit_body_printable (fuel : nat) (e : Editor) (c : ascii) (rest : stream) :
  printable c = true ->
  edit_body fuel (e, String c rest) = Done (handle_char (one c) e, rest).
Proof.
  intros H. destruct (printable_unbound c H) as (K & N & O & G).
  unfold edit_body. rewrite read_literal by exact N.
  cbn [bind char]. now rewrite K, O, G.
Qed.

(** At the end of the input [read] returns the empty string, of which
    [ord] cannot be taken. *)
Lemma edit_body_end_of_input (fuel : nat) (e : Editor) :
  edit_body fuel (e, "") = Raised OrdTypeError.
Proof. reflexivity. Qed.

Lemma handle_char_running (c : string) (e : Editor) :
  running (handle_char c e) = running e /\ maxlen (handle_char c e) = maxlen e
  /\ post (handle_char c e) = post e.
Proof.
  unfold handle_char. destruct (_ || _)%bool; [| auto].
  destruct (show_state 0 (set_pre (pre e ++ c) e)) as (_ & -> & -> & ->). auto.
Qed.

Lemma type_chars_state (s : string) :
  forall e : Editor,
    running (type_chars s e) = running e
    /\ maxlen (type_chars s e) = maxlen e
    /\ post (type_chars s e) = post e
    /\ pre (type_chars s e) = pre e ++ accepted (maxlen e) (total e) s.
Proof.
  unfold accepted.
  induction s as [|c s IH]; intros e; simpl.
  - destruct (maxlen e <? 0)%Z, (Z.to_nat (maxlen e) - total e);
      now rewrite append_nil_r.
  - destruct (IH (handle_char (one c) e)) as (-> & -> & -> & ->).
    destruct (handle_char_running (one c) e) as (-> & -> & ->).
    repeat split.
    unfold handle_char, total. rewrite length_append.
    destruct (maxlen e <? 0)%Z eqn:Neg; simpl orb.
    + destruct (show_state 0 (set_pre (pre e ++ one c) e)) as (-> & _).
      cbn [pre set_pre]. now rewrite append_assoc.
    + apply Z.ltb_ge in Neg.
      destruct (Z.of_nat (length (pre e) + length (post e)) <? maxlen e)%Z eqn:Room.
      * apply Z.ltb_lt in Room.
        destruct (show_state 0 (set_pre (pre e ++ one c) e)) as (-> & -> & _).
        cbn [pre post set_pre]. rewrite length_append. simpl length.
        replace (Z.to_nat (maxlen e) - (length (pre e) + length (post e)))
          with (S (Z.to_nat (maxlen e) - (length (pre e) + 1 + length (post e))))
          by lia.
        simpl. now rewrite append_assoc.
      * apply Z.ltb_ge in Room.
        replace (Z.to_nat (maxlen e) - (length (pre e) + length (post e)))
          with 0 by lia.
        reflexivity.
Qed.

Lemma edit_loop_typing (s : string) (rest : stream) (fuel : nat) :
  all_printable s = true ->
  forall e : Editor,
    running e = true ->
    edit_loop (length s + fuel) (e, s ++ rest)
    = edit_loop fuel (type_chars s e, rest).
Proof.
  induction s as [|c s IH]; intros H e R; [reflexivity |].
  simpl in H. apply andb_prop in H as [Hc Hs].
  change (length (String c s) + fuel) with (S (length s + fuel)).
  change (String c s ++ rest) with (String c (s ++ rest)).
  rewrite edit_loop_step by exact R.
  rewrite edit_body_printable by exact Hc. cbn [bind].
  rewrite IH; [reflexivity | exact Hs |].
  destruct (handle_char_running (one c) e) as (-> & _). exact R.
Qed.

Lemma edit_begin_state (text post0 : string) (e : Editor) :
  pre (edit_begin text post0 e) = text
  /\ post (edit_begin text post0 e) = post0
  /\ maxlen (edit_begin text post0 e) = maxlen e
  /\ running (edit_begin text post0 e) = true.
Proof.
  unfold edit_begin. cbn [pre post maxlen running set_running].
  match goal with |- context [show 0 ?x] =>
    destruct (show_state 0 x) as (-> & -> & -> & _) end.
  auto.
Qed.

(** X16. Typing. A session that reads printable characters and then a newline
    returns the initial text with as many of the characters as the capacity
    allows inserted at the cursor, in order, and leaves what follows the
    newline unread. When there is room for all of them, or no capacity limit,
    all are inserted. *)
Theorem typed_text_is_inserted (text post0 s : string) (rest : stream)
        (e : Editor) (fuel : nat) :
  all_printable s = true ->
  (exists e' : Editor,
      edit (length s + (1 + fuel)) text post0 e (s ++ String "010" rest)
      = Done (text ++ accepted (maxlen e) (length text + length post0) s
                   ++ post0, e', rest))
  /\ ((maxlen e < 0)%Z
      \/ (Z.of_nat (length text + length post0 + length s) <= maxlen e)%Z ->
      accepted (maxlen e) (length text + length post0) s = s).
Proof.
  intros H. split.
  - destruct (edit_begin_state text post0 e) as (P & Q & M & R).
    destruct (type_chars_state s (edit_begin text post0 e)) as (R1 & M1 & Q1 & P1).
    exists (enter (type_chars s (edit_begin text post0 e))).
    unfold edit. rewrite edit_loop_typing by assumption.
    rewrite edit_loop_step by (cbn [fst]; congruence).
    rewrite (edit_body_literal fuel _ "010"%char _ enter)
      by (discriminate || reflexivity).
    cbn [bind]. rewrite edit_loop_stopped by reflexivity.
    cbn [bind]. unfold enter. cbn [pre post set_running].
    rewrite P1, Q1, M, P, Q. unfold total. rewrite P, Q.
    now rewrite append_assoc.
  - unfold accepted. intros [Neg | Room].
    + apply Z.ltb_lt in Neg. now rewrite Neg.
    + destruct (maxlen e <? 0)%Z; [reflexivity |].
      rewrite <- (append_nil_r s) at 1.
      replace (Z.to_nat (maxlen e) - (length text + length post0))
        with (length s + (Z.to_nat (maxlen e)
                          - (length text + length post0 + length s))) by lia.
      generalize (Z.to_nat (maxlen e) - (length text + length post0 + length s)).
      intros k. rewrite append_nil_r. clear.
      induction s as [|c s IH]; simpl; [now destruct k | now rewrite IH].
Qed.

Lemma typed_text_is_inserted_witness :
  exists e' : Editor,
    edit 6 "ab" "yz" (Editor_init (Some 6%Z) 80) ("hello" ++ String "010" "more")
    = Done ("abheyz", e', "more").
Proof.
  destruct (typed_text_is_inserted "ab" "yz" "hello" "more"
              (Editor_init (Some 6%Z) 80) 0 eq_refl) as [[e' H] _].
  exists e'. exact H.
Defined.

(** X17. End of input. A session whose input holds printable characters only and
    ends without a newline does not return: once the input is used up,
    [ord] is applied to the empty string and the TypeError leaves [edit]. *)
Theorem edit_raises_at_end_of_input (text post0 s : string) (e : Editor)
        (fuel : nat) :
  all_printable s = true ->
  edit (length s + (1 + fuel)) text post0 e s = Raised OrdTypeError.
Proof.
  intros H. destruct (edit_begin_state text post0 e) as (P & Q & M & R).
  destruct (type_chars_state s (edit_begin text post0 e)) as (R1 & _).
  unfold edit. rewrite <- (append_nil_r s) at 2.
  rewrite edit_loop_typing by assumption.
  rewrite edit_loop_step by (cbn [fst]; congruence).
  now rewrite edit_body_end_of_input.
Qed.

Lemma edit_raises_at_end_of_input_witness :
  edit (length "abc" + (1 + 0)) "" "" (Editor_init None 80) "abc"
  = Raised OrdTypeError.
Proof.
  apply (edit_raises_at_end_of_input "" "" "abc" (Editor_init None 80) 0).
  reflexivity.
Defined.

Lemma edit_body_ignored_control (fuel : nat) (e : Editor) (c : ascii)
      (rest : stream) :
  ignored_control c = true ->
  edit_body fuel (e, String c rest) = Done (e, rest).
Proof.
  destruct c as [[] [] [] [] [] [] [] []]; intros H;
    try discriminate H; reflexivity.
Qed.

Lemma edit_body_escape (fuel : nat) (e : Editor) (fd fd' : stream) (k : option Z) :
  read fuel (ESC ++ fd) = Done (mkKey None k, fd') ->
  edit_body fuel (e, ESC ++ fd)
  = Done (match k with
          | Some code =>
              match int_dict_get esc_cmds code with
              | Some cmdfunc => show 0 (cmdfunc e)
              | None => e
              end
          | None => e
          end, fd').
Proof.
  intros H. unfold edit_body. rewrite H. cbn [bind char cmd].
  destruct k as [code|]; [| reflexivity].
  now destruct (int_dict_get esc_cmds code).
Qed.

(** X18. Keys without effect. A control character that is not bound (tab
    included, whose handler is still to be written), the keys UP, DOWN,
    INSERT, PAGE_UP and PAGE_DOWN, a well-formed control sequence that is
    not in the table, and ESC followed by something else than '[' leave the
    editor as it is: no change of the buffer and no output. *)
Theorem keys_without_effect (e : Editor) (rest : stream) :
  (forall (fuel : nat) (c : ascii),
      ignored_control c = true ->
      edit_body fuel (e, String c rest) = Done (e, rest))
  /\ Forall (fun body : string =>
               forall fuel : nat,
                 edit_body (length body + fuel) (e, ESC ++ "[" ++ body ++ rest)
                 = Done (e, rest))
            ["A"; "B"; "2~"; "5~"; "6~"]
  /\ (forall (fuel : nat) (params inters : string) (f : ascii),
         all_in CS_PARAMETER params = true ->
         all_in CS_INTERMEDIATE inters = true ->
         in_class CS_FINAL (one f) = true ->
         length params <= fuel ->
         length inters <= fuel ->
         dict_get SEQ (params ++ inters ++ one f) = None ->
         edit_body fuel (e, ESC ++ "[" ++ params ++ inters ++ String f rest)
         = Done (e, rest))
  /\ (forall (fuel : nat) (next : ascii),
         one next <> "[" ->
         edit_body fuel (e, ESC ++ String next rest) = Done (e, rest)).
Proof.
  pose proof SEQ_entries_decode as T. rewrite Forall_forall in T.
  repeat apply conj.
  - intros fuel c. apply edit_body_ignored_control.
  - repeat (apply Forall_cons; [intros fuel |]); [.. | apply Forall_nil].
    + now rewrite (edit_body_escape _ e _ rest (Some UP))
        by (apply (T ("A", UP)); simpl; auto).
    + now rewrite (edit_body_escape _ e _ rest (Some DOWN))
        by (apply (T ("B", DOWN)); simpl; auto).
    + now rewrite (edit_body_escape _ e _ rest (Some INSERT))
        by (apply (T ("2~", INSERT)); simpl; auto 10).
    + now rewrite (edit_body_escape _ e _ rest (Some PAGE_UP))
        by (apply (T ("5~", PAGE_UP)); simpl; auto 12).
    + now rewrite (edit_body_escape _ e _ rest (Some PAGE_DOWN))
        by (apply (T ("6~", PAGE_DOWN)); simpl; auto 12).
  - intros fuel params inters f Hp Hi Hf Lp Li Hnone.
    destruct (final_ends_runs inters f Hi Hf) as [Hfirst Hc].
    rewrite (edit_body_escape _ e _ rest UNKNOWN); [reflexivity |].
    rewrite read_csi by assumption. now rewrite Hf, Hnone.
  - intros fuel next H.
    rewrite (edit_body_escape _ e _ rest UNKNOWN); [reflexivity |].
    rewrite read_esc. unfold parse_esc. now rewrite esc2str_not_csi.
Qed.

Lemma keys_without_effect_witness :
  edit_body 0 (mkEditor 9 "ab" "cd" true "", String "009" "x")
  = Done (mkEditor 9 "ab" "cd" true "", "x")
  /\ edit_body 2 (mkEditor 9 "ab" "cd" true "",
                  ESC ++ "[" ++ "15" ++ "" ++ String "~" "x")
     = Done (mkEditor 9 "ab" "cd" true "", "x").
Proof.
  destruct (keys_without_effect (mkEditor 9 "ab" "cd" true "") "x")
    as (H1 & _ & H3 & _).
  split.
  - apply H1. reflexivity.
  - apply H3; try reflexivity; simpl; lia.
Defined.

(** X19. The seven bound escape keys: reading the sequence of LEFT, RIGHT, HOME,
    END, DELETE, CTRL_LEFT or CTRL_RIGHT runs the handler of that name and
    then one render step without erase. *)
Theorem escape_keys_run_their_handler (e : Editor) (rest : stream) :
  Forall (fun entry : string * (Editor -> Editor) =>
            forall fuel : nat,
              edit_body (length (fst entry) + fuel)
                (e, ESC ++ "[" ++ fst entry ++ rest)
              = Done (show 0 (snd entry e), rest))
         [ ("D", left); ("C", right); ("H", home); ("F", end_);
           ("3~", delete); ("1;5D", word_left); ("1;5C", word_right) ].
Proof.
  pose proof SEQ_entries_decode as T. rewrite Forall_forall in T.
  repeat (apply Forall_cons; [intros fuel; cbn [fst snd] |]);
    [.. | apply Forall_nil].
  - now rewrite (edit_body_escape _ e _ rest (Some LEFT))
      by (apply (T ("D", LEFT)); simpl; auto 12).
  - now rewrite (edit_body_escape _ e _ rest (Some RIGHT))
      by (apply (T ("C", RIGHT)); simpl; auto 12).
  - now rewrite (edit_body_escape _ e _ rest (Some HOME))
      by (apply (T ("H", HOME)); simpl; auto 12).
  - now rewrite (edit_body_escape _ e _ rest (Some END))
      by (apply (T ("F", END)); simpl; auto 12).
  - now rewrite (edit_body_escape _ e _ rest (Some DELETE))
      by (apply (T ("3~", DELETE)); simpl; auto 12).
  - now rewrite (edit_body_escape _ e _ rest (Some CTRL_LEFT))
      by (apply (T ("1;5D", CTRL_LEFT)); simpl; auto 20).
  - now rewrite (edit_body_escape _ e _ rest (Some CTRL_RIGHT))
      by (apply (T ("1;5C", CTRL_RIGHT)); simpl; auto 20).
Qed.

(** *** What every key does to the state *)

Ltac keeps_running :=
  intros;
  repeat match goal with
         | |- context [if ?b then _ else _] => destruct b
         end;
  repeat match goal with
         | |- context [show ?k ?x] =>
             destruct (show_state k x) as (_ & _ & _ & ->)
         end;
  reflexivity.

Lemma backspace_running (e : Editor) : running (backspace e) = running e.
Proof. unfold backspace. keeps_running. Qed.

Lemma kill_post_running (e : Editor) : running (kill_post e) = running e.
Proof. unfold kill_post. keeps_running. Qed.

Lemma delete_word_running (e : Editor) : running (delete_word e) = running e.
Proof. unfold delete_word. keeps_running. Qed.

Lemma delete_running (e : Editor) : running (delete e) = running e.
Proof. unfold delete. keeps_running. Qed.

Lemma left_running (e : Editor) : running (left e) = running e.
Proof. unfold left. keeps_running. Qed.

Lemma right_running (e : Editor) : running (right e) = running e.
Proof. unfold right. keeps_running. Qed.

Lemma word_left_running (e : Editor) : running (word_left e) = running e.
Proof. unfold word_left. keeps_running. Qed.

Lemma word_right_running (e : Editor) : running (word_right e) = running e.
Proof. unfold word_right. keeps_running. Qed.

Lemma enter_never_grows : never_grows enter.
Proof. intros e. split; [apply Nat.le_refl | reflexivity]. Qed.

Lemma tab_never_grows : never_grows tab.
Proof. intros e. split; [apply Nat.le_refl | reflexivity]. Qed.

(** The handlers of [key_cmds]: none makes the line longer, and only the
    one of newline changes [running]. *)
Lemma key_cmds_handlers (c : string) (f : Editor -> Editor) :
  dict_get key_cmds c = Some f ->
  never_grows f
  /\ ((c = String "010" "" /\ f = enter)
      \/ forall e : Editor, running (f e) = running e).
Proof.
  unfold key_cmds. cbn [dict_get].
  destruct (String "010" "" =? c)%string eqn:E1.
  { apply eqb_eq in E1. intros H. injection H as <-.
    split; [apply enter_never_grows | left; auto]. }
  destruct (String "009" "" =? c)%string.
  { intros H. injection H as <-. split; [apply tab_never_grows | right; auto]. }
  destruct (String "127" "" =? c)%string.
  { intros H. injection H as <-.
    split; [apply backspace_never_grows | right; apply backspace_running]. }
  destruct (String "008" "" =? c)%string.
  { intros H. injection H as <-.
    split; [apply backspace_never_grows | right; apply backspace_running]. }
  destruct (String "011" "" =? c)%string.
  { intros H. injection H as <-.
    split; [apply kill_post_never_grows | right; apply kill_post_running]. }
  destruct (String "023" "" =? c)%string.
  { intros H. injection H as <-.
    split; [apply delete_word_never_grows | right; apply delete_word_running]. }
  discriminate.
Qed.

Lemma esc_cmds_handlers (k : Z) (f : Editor -> Editor) :
  int_dict_get esc_cmds k = Some f ->
  never_grows f /\ forall e : Editor, running (f e) = running e.
Proof.
  unfold esc_cmds. cbn [int_dict_get].
  destruct (LEFT =? k)%Z.
  { intros H. injection H as <-. split; [apply left_never_grows | apply left_running]. }
  destruct (RIGHT =? k)%Z.
  { intros H. injection H as <-. split; [apply right_never_grows | apply right_running]. }
  destruct (HOME =? k)%Z.
  { intros H. injection H as <-. split; [apply home_never_grows | reflexivity]. }
  destruct (END =? k)%Z.
  { intros H. injection H as <-. split; [apply end_never_grows | reflexivity]. }
  destruct (DELETE =? k)%Z.
  { intros H. injection H as <-. split; [apply delete_never_grows | apply delete_running]. }
  destruct (CTRL_LEFT =? k)%Z.
  { intros H. injection H as <-.
    split; [apply word_left_never_grows | apply word_left_running]. }
  destruct (CTRL_RIGHT =? k)%Z.
  { intros H. injection H as <-.
    split; [apply word_right_never_grows | apply word_right_running]. }
  discriminate.
Qed.

Lemma ord_some_length (c : string) (n : nat) : ord c = Some n -> length c = 1.
Proof. destruct c as [|a [|]]; simpl; intros H; now try discriminate. Qed.

Lemma handle_char_total (c : string) (e : Editor) :
  length c = 1 -> (0 <= maxlen e)%Z ->
  total (handle_char c e) <= Nat.max (total e) (Z.to_nat (maxlen e)).
Proof.
  intros Hc M. unfold handle_char. rewrite length_append.
  destruct (maxlen e <? 0)%Z eqn:Neg; [apply Z.ltb_lt in Neg; lia |].
  simpl orb.
  destruct (Z.of_nat (length (pre e) + length (post e)) <? maxlen e)%Z eqn:Room;
    [| lia].
  apply Z.ltb_lt in Room.
  destruct (show_total 0 (set_pre (pre e ++ c) e)) as [-> _].
  unfold total. cbn [pre post set_pre]. rewrite length_append, Hc. lia.
Qed.

(** One key, whatever it is. *)
Lemma edit_body_step (fuel : nat) (e e' : Editor) (fd fd' : stream) :
  edit_body fuel (e, fd) = Done (e', fd') ->
  (exists k : Key, read fuel fd = Done (k, fd'))
  /\ fd <> ""
  /\ maxlen e' = maxlen e
  /\ ((0 <= maxlen e)%Z ->
      total e' <= Nat.max (total e) (Z.to_nat (maxlen e)))
  /\ (running e' = running e \/ fd = String "010" fd').
Proof.
  intros H.
  assert (fd <> "") as Hne by (intros ->; discriminate H).
  unfold edit_body in H.
  destruct (read fuel fd) as [[k fd1]| |] eqn:R; try discriminate H.
  cbn [bind] in H.
  assert (forall c, char k = Some c ->
                    c = fst (fd_read1 fd) /\ fd1 = snd (fd_read1 fd)) as Lit.
  { intros c Hc. unfold read, Key_init in R.
    destruct (fd_read1 fd) as [key fd0]. simpl.
    destruct (negb (key =? ESC)%string).
    - injection R as <- <-. simpl in Hc. injection Hc as <-. auto.
    - unfold parse_esc in R. destruct (esc2str fuel fd0) as [[seq fd2]| |];
        try discriminate R.
      cbn [bind] in R. injection R as <- <-. discriminate Hc. }
  destruct (char k) as [c|] eqn:C.
  - destruct (dict_get key_cmds c) as [f|] eqn:K.
    + injection H as <- <-.
      destruct (key_cmds_handlers c f K) as [G Run].
      destruct (G e) as [T M].
      repeat split; eauto.
      * intros _. lia.
      * destruct Run as [[-> ->] | Run]; [right | left; apply Run].
        destruct (Lit _ eq_refl) as [F S].
        destruct fd as [|a fd]; [now elim Hne |].
        simpl in F, S. injection F as <-. now subst fd1.
    + destruct (ord c) as [n|] eqn:O; [| discriminate H].
      pose proof (ord_some_length c n O) as L.
      destruct (32 <=? n); injection H as <- <-.
      * destruct (handle_char_running c e) as (Rn & Mx & _).
        repeat split; eauto. intros M. now apply handle_char_total.
      * repeat split; eauto. intros _. lia.
  - destruct (cmd k) as [code|].
    + destruct (int_dict_get esc_cmds code) as [f|] eqn:K; injection H as <- <-.
      * destruct (esc_cmds_handlers code f K) as [G Run].
        destruct (show_total 0 (f e)) as [T M].
        destruct (show_state 0 (f e)) as (_ & _ & _ & Rn).
        destruct (G e) as [G1 G2].
        split; [now exists k |]. split; [exact Hne |].
        split; [now rewrite M |]. split; [intros _; lia |].
        left. rewrite Rn. apply Run.
      * repeat split; eauto. intros _. lia.
    + injection H as <- <-. repeat split; eauto. intros _. lia.
Qed.

(** *** Whole sessions *)

Lemma edit_loop_done (fuel : nat) :
  forall (e e' : Editor) (fd fd' : stream),
    edit_loop fuel (e, fd) = Done (e', fd') ->
    maxlen e' = maxlen e
    /\ ((0 <= maxlen e)%Z ->
        total e' <= Nat.max (total e) (Z.to_nat (maxlen e)))
    /\ running e' = false
    /\ (running e = true -> exists used : string, fd = used ++ String "010" fd').
Proof.
  induction fuel as [|fuel IH]; intros e e' fd fd' H.
  - simpl in H. destruct (running e) eqn:R; [discriminate H |].
    injection H as <- <-. repeat split; auto; [lia | discriminate].
  - destruct (running e) eqn:R.
    2:{ rewrite edit_loop_stopped in H by exact R. injection H as <- <-.
        repeat split; auto; [lia | discriminate]. }
    rewrite edit_loop_step in H by exact R.
    destruct (edit_body fuel (e, fd)) as [[e1 fd1]| |] eqn:B; try discriminate H.
    cbn [bind] in H.
    destruct (edit_body_step fuel e e1 fd fd1 B) as ([k Rd] & Hne & M1 & T1 & N1).
    destruct (IH e1 e' fd1 fd' H) as (M2 & T2 & R2 & N2).
    repeat split; [congruence | | exact R2 |].
    + intros M. rewrite M1 in T2. specialize (T1 M). specialize (T2 M). lia.
    + intros _. destruct (running e1) eqn:R1.
      * destruct (N2 eq_refl) as [used ->].
        apply read_consumes in Rd as (u & -> & _).
        exists (u ++ used). now rewrite append_assoc.
      * destruct N1 as [N1 | ->]; [congruence |].
        rewrite edit_loop_stopped in H by exact R1. injection H as _ <-.
        now exists "".
Qed.

(** X20. The length of the line that [edit] returns. With a capacity
    [maxlen >= 0] the returned line is never longer than the larger of the
    capacity and the length of the initial line, whatever the keys were. *)
Theorem session_length_bound (fuel : nat) (text post0 : string) (e e' : Editor)
        (fd fd' : stream) (r : string) :
  edit fuel text post0 e fd = Done (r, e', fd') ->
  (0 <= maxlen e)%Z ->
  length r <= Nat.max (length text + length post0) (Z.to_nat (maxlen e)).
Proof.
  unfold edit. intros H M.
  destruct (edit_loop fuel (edit_begin text post0 e, fd)) as [[e1 fd1]| |] eqn:L;
    try discriminate H.
  cbn [bind] in H. injection H as <- <- <-.
  destruct (edit_begin_state text post0 e) as (P & Q & Mx & _).
  destruct (edit_loop_done fuel _ _ _ _ L) as (_ & T & _).
  rewrite Mx in T. specialize (T M). unfold total in T. rewrite P, Q in T.
  now rewrite length_append.
Qed.

Lemma session_length_bound_witness :
  length "abxcd" <= Nat.max (length "ab" + length "cd") (Z.to_nat 5).
Proof.
  apply (session_length_bound 2 "ab" "cd" (mkEditor 5 "" "" false "")
           (match edit 2 "ab" "cd" (mkEditor 5 "" "" false "")
                    (String "x" (String "010" "more")) with
            | Done (_, e', _) => e'
            | _ => mkEditor 5 "" "" false ""
            end)
           (String "x" (String "010" "more")) "more" "abxcd").
  - vm_compute. reflexivity.
  - simpl. lia.
Defined.

(** X21. How a session ends. [edit] returns only after it has read a newline,
    and it reads nothing after that newline: the input is what the session
    used, the newline, and the input that is left. *)
Theorem session_ends_on_newline (fuel : nat) (text post0 : string)
        (e e' : Editor) (fd fd' : stream) (r : string) :
  edit fuel text post0 e fd = Done (r, e', fd') ->
  (exists used : string, fd = used ++ String "010" fd')
  /\ r = pre e' ++ post e'
  /\ running e' = false.
Proof.
  unfold edit. intros H.
  destruct (edit_loop fuel (edit_begin text post0 e, fd)) as [[e1 fd1]| |] eqn:L;
    try discriminate H.
  cbn [bind] in H. injection H as <- <- <-.
  destruct (edit_begin_state text post0 e) as (_ & _ & _ & R).
  destruct (edit_loop_done fuel _ _ _ _ L) as (_ & _ & R1 & N).
  auto.
Qed.

Lemma edit_loop_hangs (fuel : nat) :
  forall (e : Editor) (fd : stream),
    length fd < fuel ->
    edit_loop fuel (e, fd) = OutOfFuel ->
    exists used tail : string, fd = used ++ tail /\ truncated_csi tail.
Proof.
  induction fuel as [|fuel IH]; intros e fd Hlen H; [lia |].
  destruct (running e) eqn:R;
    [| rewrite edit_loop_stopped in H by exact R; discriminate H].
  rewrite edit_loop_step in H by exact R.
  destruct (edit_body fuel (e, fd)) as [[e1 fd1]| |] eqn:B; try discriminate H.
  - cbn [bind] in H.
    destruct (edit_body_step fuel e e1 fd fd1 B) as ([k Rd] & Hne & _).
    pose proof (read_shortens fuel fd fd1 k Rd Hne) as Short.
    destruct (IH e1 fd1 ltac:(lia) H) as (used & tail & -> & T).
    apply read_consumes in Rd as (u & -> & _).
    exists (u ++ used), tail. now rewrite append_assoc.
  - exists "", fd. split; [reflexivity |].
    apply (read_out_of_fuel_iff fd fuel); [lia |].
    unfold edit_body in B.
    destruct (read fuel fd) as [[k fd1]| |]; try discriminate B; [| reflexivity].
    exfalso. cbn [bind] in B.
    destruct (char k) as [c|].
    + destruct (dict_get key_cmds c); [discriminate B |].
      destruct (ord c) as [n|]; [| discriminate B].
      destruct (32 <=? n); discriminate B.
    + destruct (cmd k) as [code|]; [| discriminate B].
      destruct (int_dict_get esc_cmds code); discriminate B.
Qed.

(** X22. A session cannot hang on complete input. With a bound on the iterations
    above the length of the input, [edit] is still running at the bound only
    if the input ends inside a control sequence; and on input that is such
    an unfinished sequence it is still running at every bound. *)
Theorem session_hangs_only_inside_sequence (text post0 : string) (e : Editor)
        (fd : stream) :
  (forall fuel : nat,
      length fd < fuel ->
      edit fuel text post0 e fd = OutOfFuel ->
      exists used tail : string, fd = used ++ tail /\ truncated_csi tail)
  /\ (truncated_csi fd ->
      forall fuel : nat, edit fuel text post0 e fd = OutOfFuel).
Proof.
  split.
  - intros fuel Hlen H. unfold edit in H.
    destruct (edit_loop fuel (edit_begin text post0 e, fd)) as [[e1 fd1]| |] eqn:L;
      try discriminate H.
    now apply (edit_loop_hangs fuel (edit_begin text post0 e) fd).
  - intros T fuel. unfold edit.
    destruct (edit_begin_state text post0 e) as (_ & _ & _ & R).
    destruct fuel as [|fuel];
      [change (edit_loop 0 (edit_begin text post0 e, fd))
         with (if running (edit_begin text post0 e)
               then @OutOfFuel (Editor * stream)
               else Done (edit_begin text post0 e, fd));
       now rewrite R |].
    rewrite edit_loop_step by exact R.
    unfold edit_body.
    destruct T as (params & inters & -> & Hp & Hi).
    now rewrite read_truncated_csi.
Qed.

Lemma session_hangs_only_inside_sequence_witness :
  edit 7 "ab" "" (Editor_init None 80) (ESC ++ "[" ++ "1;" ++ "") = OutOfFuel.
Proof.
  apply (session_hangs_only_inside_sequence "ab" "" (Editor_init None 80)
           (ESC ++ "[" ++ "1;" ++ "")).
  exists "1;", "". repeat split.
Defined.

Lemma session_ends_on_newline_witness :
  (exists used : string,
      String "x" (String "010" "more") = used ++ String "010" "more")
  /\ "abxcd"
     = pre (match edit 2 "ab" "cd" (mkEditor 5 "" "" false "")
                  (String "x" (String "010" "more")) with
            | Done (_, e', _) => e'
            | _ => mkEditor 5 "" "" false ""
            end)
       ++ post (match edit 2 "ab" "cd" (mkEditor 5 "" "" false "")
                      (String "x" (String "010" "more")) with
                | Done (_, e', _) => e'
                | _ => mkEditor 5 "" "" false ""
                end)
  /\ running (match edit 2 "ab" "cd" (mkEditor 5 "" "" false "")
                     (String "x" (String "010" "more")) with
               | Done (_, e', _) => e'
               | _ => mkEditor 5 "" "" false ""
               end) = false.
Proof.
  apply (session_ends_on_newline 2 "ab" "cd" (mkEditor 5 "" "" false "")
           (match edit 2 "ab" "cd" (mkEditor 5 "" "" false "")
                    (String "x" (String "010" "more")) with
            | Done (_, e', _) => e'
            | _ => mkEditor 5 "" "" false ""
            end)
           (String "x" (String "010" "more")) "more" "abxcd").
  vm_compute. reflexivity.
Defined.

(** ** The ends of the line *)

(** X11. [home] and [end_] absorb what came before, and the single steps stop at
    the ends of the line: after [home] a step to the left changes nothing,
    after [end_] a step to the right changes nothing. *)
Theorem line_ends (e : Editor) :
  end_ (home e) = end_ e
  /\ home (end_ e) = home e
  /\ home (home e) = home e
  /\ end_ (end_ e) = end_ e
  /\ left (home e) = home e
  /\ right (end_ e) = end_ e
  /\ pre (home e) = "" /\ post (home e) = pre e ++ post e
  /\ pre (end_ e) = pre e ++ post e /\ post (end_ e) = "".
Proof.
  destruct e as [m p q r o].
  unfold home, end_, left, right, set_pre, set_post. cbn [pre post maxlen running out].
  rewrite ?append_nil_r. repeat split.
Qed.

(** ** What is written to the terminal *)












